(** * DDS decoder: a shallow embedding of [image.go] / the DXT5 block decoder

    The development follows the Go source function by function.  Go values
    are modelled as follows.

    - [uint8], [uint16], [uint32] and [uint] values are integers of [Z]
      with the wrap-around of every arithmetic operation written out
      ([u8], [u16], [u32], [uint]); [int] is the 64-bit signed integer
      ([int64]).
    - A [[]byte] is a Go slice: a window of [len] elements over a backing
      array that extends up to the capacity.  Re-slicing is checked against
      the capacity (for the upper bound) and the length (for an omitted
      upper bound), as the language specifies.
    - A call either returns normally, returns an [error], or panics
      (run-time bounds checks): the three constructors of [outcome].

    [init] (registration with the [image] package) has no behaviour of
    its own and is not part of the development. *)

From Stdlib Require Import ZArith Bool Btauto.
From Stdlib.Strings Require Import Byte.
From stdpp Require Import base list.
From coqutil Require Import Z.bitblast.

Local Open Scope Z_scope.

(** ** Fixed-width integers *)

Definition u8 (z : Z) : Z := z mod 2 ^ 8.
Definition u16 (z : Z) : Z := z mod 2 ^ 16.
Definition u32 (z : Z) : Z := z mod 2 ^ 32.
Definition uint (z : Z) : Z := z mod 2 ^ 64.
Definition int64 (z : Z) : Z := (z + 2 ^ 63) mod 2 ^ 64 - 2 ^ 63.

(** [int] arithmetic. Go's [/] on [int] truncates toward zero. *)
Definition iadd (a b : Z) : Z := int64 (a + b).
Definition imul (a b : Z) : Z := int64 (a * b).
Definition idiv (a b : Z) : Z := int64 (Z.quot a b).

(** [uint8] arithmetic, as used by the interpolation formulas. *)
Definition add8 (a b : Z) : Z := u8 (a + b).
Definition sub8 (a b : Z) : Z := u8 (a - b).
Definition mul8 (a b : Z) : Z := u8 (a * b).
Definition div8 (a b : Z) : Z := a / b.

Definition byte_val (b : byte) : Z := Z.of_N (Byte.to_N b).

(** Little-endian value of a byte string ([binary.LittleEndian]). *)
Fixpoint le_uint (bs : list byte) : Z :=
  match bs with
  | [] => 0
  | b :: bs' => byte_val b + 256 * le_uint bs'
  end.

(** ** Errors, panics and outcomes *)

Inductive error : Type :=
  | ErrEOF                                   (* io.EOF *)
  | ErrUnexpectedEOF                         (* io.ErrUnexpectedEOF *)
  | ErrUnsupportedCompression (fourCC : Z)   (* "unsupported compression format %x" *)
  | ErrUnsupportedPixelFormat (flags : Z)    (* "unsupported pixel format %x" *)
  | ErrReadingImage (cause : error)          (* "reading image: %v" *)
  | ErrForeign (code : Z).                   (* an error of a collaborator *)

Inductive panic : Type :=
  | PanicSliceBounds                         (* slice bounds out of range *)
  | PanicIndex (index : Z) (length : nat)    (* index out of range *)
  | PanicMakeLen.                            (* makeslice: len out of range *)

Inductive outcome (A : Type) : Type :=
  | Ok (a : A)
  | Err (e : error)
  | Panic (p : panic).

Arguments Ok {A} a.
Arguments Err {A} e.
Arguments Panic {A} p.

Definition bind {A B : Type} (c : outcome A) (k : A -> outcome B) : outcome B :=
  match c with
  | Ok a => k a
  | Err e => Err e
  | Panic p => Panic p
  end.

Declare Scope outcome_scope.
Delimit Scope outcome_scope with outcome.
Notation "'try!' x ':=' c 'in' k" := (bind c (fun x => k))
  (at level 10, x pattern, c at level 100, k at level 200) : outcome_scope.
Local Open Scope outcome_scope.

(** ** Loops

    [for i := 0; i < bound; i++ { s = body i s }], leaving the loop at the
    first error or panic.  The counter stays below [bound], so [i++] does
    not wrap. *)

Fixpoint for_from {S : Type} (n : nat) (i : Z)
    (body : Z -> S -> outcome S) (s : S) : outcome S :=
  match n with
  | O => Ok s
  | Datatypes.S n' => try! s' := body i s in for_from n' (i + 1) body s'
  end.

Definition for_loop {S : Type} (bound : Z)
    (body : Z -> S -> outcome S) (s : S) : outcome S :=
  for_from (Z.to_nat bound) 0 body s.

(** ** Go slices *)

Module Slice.

Record t (A : Type) : Type := Make {
  arr : list A;   (* the backing array from the first element up to the capacity *)
  len : nat       (* the number of elements in the window *)
}.
Arguments Make {A} arr len.
Arguments arr {A} _.
Arguments len {A} _.

Definition cap {A} (s : t A) : nat := length (arr s).

(** The elements that [len], [range] and readers see. *)
Definition visible {A} (s : t A) : list A := take (len s) (arr s).

(** A slice whose capacity equals its length ([make], literals). *)
Definition of_list {A} (l : list A) : t A := Make l (length l).

(** A slice is well formed when its window lies within the capacity, and
    the capacity is an [int]. *)
Definition wf {A} (s : t A) : Prop :=
  (len s <= cap s)%nat /\ Z.of_nat (cap s) < 2 ^ 63.

(** [s[lo:hi]]: panics unless [0 <= lo <= hi <= cap(s)]. *)
Definition range {A} (s : t A) (lo hi : Z) : outcome (t A) :=
  if (0 <=? lo) && (lo <=? hi) && (hi <=? Z.of_nat (cap s))
  then Ok (Make (drop (Z.to_nat lo) (arr s)) (Z.to_nat (hi - lo)))
  else Panic PanicSliceBounds.

(** [s[lo:]]: the upper bound defaults to [len(s)]. *)
Definition from {A} (s : t A) (lo : Z) : outcome (t A) :=
  range s lo (Z.of_nat (len s)).

End Slice.

(** [binary.Read(bytes.NewBuffer(s), binary.LittleEndian, &v)] for a value
    [v] of [n] bytes: [io.ReadFull] over the bytes of [s]. *)
Definition binaryRead (s : Slice.t byte) (n : nat) : outcome (list byte) :=
  let data := Slice.visible s in
  if (n <=? length data)%nat then Ok (take n data)
  else if (length data =? 0)%nat then Err ErrEOF
  else Err ErrUnexpectedEOF.

(** ** Pixels *)

Record RGBA : Type := mkRGBA { R : Z; G : Z; B : Z; A : Z }.   (* color.RGBA *)

Definition zeroRGBA : RGBA := mkRGBA 0 0 0 0.

(** [unpacked[idx] = v] on a pixel slice whose capacity is its length. *)
Definition store (unpacked : list RGBA) (idx : Z) (v : RGBA) : outcome (list RGBA) :=
  if (0 <=? idx) && (idx <? Z.of_nat (length unpacked))
  then Ok (<[Z.to_nat idx := v]> unpacked)
  else Panic (PanicIndex idx (length unpacked)).

(** [make([]color.RGBA, n)]. *)
Definition makeRGBA (n : Z) : outcome (list RGBA) :=
  if n <? 0 then Panic PanicMakeLen else Ok (replicate (Z.to_nat n) zeroRGBA).

(** ** The BC3 ("DXT5") block decoder *)

Definition blockSize : Z := 4.

(** Modelled from the spec: [common.Rgb565toargb8888] belongs to the
    package [common] of this repository, whose source is not part of the
    verified file.  The spec describes it as "the standard 5/6/5 to 8/8/8
    bit-replication expansion (no alpha contribution from this
    expansion)".  The alpha field it returns is overwritten by the caller
    before any use. *)
Definition Rgb565toargb8888 (c : Z) : RGBA :=
  let r5 := Z.land (Z.shiftr c 11) 31 in
  let g6 := Z.land (Z.shiftr c 5) 63 in
  let b5 := Z.land c 31 in
  mkRGBA (Z.lor (Z.shiftl r5 3) (Z.shiftr r5 2))
         (Z.lor (Z.shiftl g6 2) (Z.shiftr g6 4))
         (Z.lor (Z.shiftl b5 3) (Z.shiftr b5 2))
         0.

(** [alphaCode1] ([uint32], bytes 4-7 of the block) and [alphaCode2]
    ([uint16], bytes 2-3) from the six bytes [bits]. *)
Definition alphaCode1Of (bits : list byte) : Z :=
  let bit k := byte_val (nth k bits x00) in
  Z.lor (Z.lor (Z.lor (bit 2%nat) (u32 (Z.shiftl (bit 3%nat) 8)))
               (u32 (Z.shiftl (bit 4%nat) 16)))
        (u32 (Z.shiftl (bit 5%nat) 24)).

Definition alphaCode2Of (bits : list byte) : Z :=
  let bit k := byte_val (nth k bits x00) in
  Z.lor (bit 0%nat) (u16 (Z.shiftl (bit 1%nat) 8)).

(** The 3-bit alpha code of texel [(i, j)]. *)
Definition alphaCodeAt (alphaCode1 alphaCode2 i j : Z) : Z :=
  let alphaCodeIndex := uint (3 * (4 * j + i)) in
  if alphaCodeIndex <=? 12 then
    Z.land (Z.shiftr alphaCode2 alphaCodeIndex) 7
  else if alphaCodeIndex =? 15 then
    Z.lor (Z.shiftr alphaCode2 15) (Z.land (u32 (Z.shiftl alphaCode1 1)) 6)
  else
    Z.land (Z.shiftr alphaCode1 (uint (alphaCodeIndex - 16))) 7.

(** [finalAlpha]: every operand is a [uint8], so products and sums are
    taken modulo 256 before the division. *)
Definition finalAlphaOf (alpha0 alpha1 alphaCode : Z) : Z :=
  if alphaCode =? 0 then alpha0
  else if alphaCode =? 1 then alpha1
  else if alpha1 <? alpha0 then
    div8 (add8 (mul8 (sub8 8 (u8 alphaCode)) alpha0)
               (mul8 (sub8 (u8 alphaCode) 1) alpha1)) 7
  else if alphaCode =? 6 then 0
  else if alphaCode =? 7 then 255
  else
    div8 (add8 (mul8 (sub8 6 (u8 alphaCode)) alpha0)
               (mul8 (sub8 (u8 alphaCode) 1) alpha1)) 5.

(** The 2-bit colour code of texel [(i, j)]. *)
Definition colorCodeAt (code i j : Z) : Z :=
  Z.land (Z.shiftr code (u32 (2 * (4 * j + i)))) 3.

(** [finalColour] before the alpha is set: the channels are [uint8]
    fields, so the blends are taken modulo 256 as well.  The composite
    literals of the cases 2 and 3 leave [A] at zero. *)
Definition finalColourOf (colour0 colour1 : RGBA) (colorCode : Z) : RGBA :=
  if colorCode =? 0 then colour0
  else if colorCode =? 1 then colour1
  else if colorCode =? 2 then
    mkRGBA (div8 (add8 (mul8 2 (R colour0)) (R colour1)) 3)
           (div8 (add8 (mul8 2 (G colour0)) (G colour1)) 3)
           (div8 (add8 (mul8 2 (B colour0)) (B colour1)) 3)
           0
  else if colorCode =? 3 then
    mkRGBA (div8 (add8 (R colour0) (mul8 2 (R colour1))) 3)
           (div8 (add8 (G colour0) (mul8 2 (G colour1))) 3)
           (div8 (add8 (B colour0) (mul8 2 (B colour1))) 3)
           0
  else zeroRGBA.

Definition setA (c : RGBA) (a : Z) : RGBA := mkRGBA (R c) (G c) (B c) a.

(** The fields of a block that the texel loop uses. *)
Record block : Type := mkBlock {
  alpha0 : Z; alpha1 : Z;
  alphaCode1 : Z; alphaCode2 : Z;
  colour0 : RGBA; colour1 : RGBA;
  code : Z
}.

(** The pixel of texel [(i, j)].  (The source's [if finalAlpha != 255]
    branch only updates a local that is never read.) *)
Definition texel (b : block) (i j : Z) : RGBA :=
  let alphaCode := alphaCodeAt (alphaCode1 b) (alphaCode2 b) i j in
  let finalAlpha := finalAlphaOf (alpha0 b) (alpha1 b) alphaCode in
  let colorCode := colorCodeAt (code b) i j in
  setA (finalColourOf (colour0 b) (colour1 b) colorCode) finalAlpha.

(** [binary.Read(bytes.NewBuffer(packed[lo:hi]), binary.LittleEndian, &v)]
    for a value [v] of [n] bytes; [packed[:1]] is [packed[0:1]]. *)
Definition readAt (packed : Slice.t byte) (lo hi : Z) (n : nat)
    : outcome (list byte) :=
  try! s := Slice.range packed lo hi in
  binaryRead s n.

(** The reads at the head of [decompressDxt5Block]. *)
Definition parseBlock (packed : Slice.t byte) : outcome block :=
  try! a0 := readAt packed 0 1 1 in
  try! a1 := readAt packed 1 2 1 in
  try! bits := readAt packed 2 8 6 in
  try! c0 := readAt packed 8 10 2 in
  try! c1 := readAt packed 10 12 2 in
  try! cd := readAt packed 12 16 4 in
  Ok (mkBlock (le_uint a0) (le_uint a1)
              (alphaCode1Of bits) (alphaCode2Of bits)
              (Rgb565toargb8888 (le_uint c0)) (Rgb565toargb8888 (le_uint c1))
              (le_uint cd)).

(** The index expression of the write, in [int] arithmetic. *)
Definition texelIndex (offsetX offsetY width i j : Z) : Z :=
  iadd (imul (iadd offsetY j) width) (iadd offsetX i).

(** The body of the inner texel loop: the only guard of the write is
    [offsetX+i < width]. *)
Definition writeTexel (b : block) (offsetX offsetY width j i : Z)
    (unpacked : list RGBA) : outcome (list RGBA) :=
  let finalColour := texel b i j in
  if iadd offsetX i <? width
  then store unpacked (texelIndex offsetX offsetY width i j) finalColour
  else Ok unpacked.

Definition decompressDxt5Block (packed : Slice.t byte)
    (offsetX offsetY width : Z) (unpacked : list RGBA) : outcome (list RGBA) :=
  try! b := parseBlock packed in
  for_loop blockSize (fun j unpacked =>
    for_loop blockSize (fun i unpacked =>
      writeTexel b offsetX offsetY width j i unpacked) unpacked) unpacked.

(** The body of the loop over the blocks of one row. *)
Definition decodeBlockAt (packed : Slice.t byte) (width offset j i : Z)
    (unpacked : list RGBA) : outcome (list RGBA) :=
  try! p := Slice.from packed (iadd offset (imul i 16)) in
  decompressDxt5Block p (imul i blockSize) (imul j blockSize) width unpacked.

Definition decompressDxt5 (packed : Slice.t byte) (width height : Z)
    : outcome (list RGBA) :=
  try! unpacked := makeRGBA (imul width height) in
  let blockCountX := idiv (iadd width 3) blockSize in
  let blockCountY := idiv (iadd height 3) blockSize in
  try! st := for_loop blockCountY (fun j (st : Z * list RGBA) =>
      let '(offset, unpacked) := st in
      try! unpacked := for_loop blockCountX
                         (decodeBlockAt packed width offset j) unpacked in
      Ok (iadd offset (imul blockCountX 16), unpacked)) (0, unpacked) in
  Ok (snd st).

(** ** The container header

    Modelled from the spec: the declaration of [header] and [pixelFormat]
    (and [readHeader]) is in a file of this repository that is not part of
    the verified source.  The spec gives the fields as the 32-bit
    little-endian words of the classical DDS layout; the conversions
    [int(h.width)], [uint(h.width)], [int(pitch)] in the source agree with
    unsigned 32-bit fields.  Only the fields the decoder reads are kept. *)

Module PixelFormat.
Record t : Type := Make {
  flags : Z; fourCC : Z; rgbBitCount : Z;
  rBitMask : Z; gBitMask : Z; bBitMask : Z; aBitMask : Z
}.
Definition is_u32 (z : Z) : Prop := 0 <= z < 2 ^ 32.
Definition wf (pf : t) : Prop :=
  is_u32 (flags pf) /\ is_u32 (fourCC pf) /\ is_u32 (rgbBitCount pf) /\
  is_u32 (rBitMask pf) /\ is_u32 (gBitMask pf) /\
  is_u32 (bBitMask pf) /\ is_u32 (aBitMask pf).
End PixelFormat.

Module Header.
Record t : Type := Make {
  height : Z; width : Z; pixelFormat : PixelFormat.t
}.
Definition wf (h : t) : Prop :=
  PixelFormat.is_u32 (height h) /\ PixelFormat.is_u32 (width h) /\
  PixelFormat.wf (pixelFormat h).
End Header.

(** Modelled from the spec: the compression tags, "0x00000000 =
    uncompressed; ASCII "DXT1" = BC1; "DXT5" = BC3", read as little-endian
    32-bit words like the rest of the header. *)
Definition compressionTypeNone : Z := 0.
Definition compressionTypeDXT1 : Z := le_uint [x44; x58; x54; x31].
Definition compressionTypeDXT5 : Z := le_uint [x44; x58; x54; x35].

(** Modelled from the spec: [lowestSetBit] is in the missing file; the
    spec says "the index of the lowest set bit of that channel's mask".
    A mask without a set bit gets offset 0. *)
Fixpoint lowestSetBit_pos (p : positive) : Z :=
  match p with
  | xO q => 1 + lowestSetBit_pos q
  | _ => 0
  end.

Definition lowestSetBit (n : Z) : Z :=
  match n with
  | Zpos p => lowestSetBit_pos p
  | _ => 0
  end.

(** Modelled from the spec: [readBits] is in the missing file; the spec
    says "read rgbBitCount bits (rounded up to a byte count) starting at
    [the given position] as an unsigned little-endian integer d".  Reading
    past the end of the slice is an index panic.  The value is kept
    unbounded here; the masks it is combined with are 32-bit words, so a
    32-bit result type gives the same channels. *)
Definition readBits (buf : Slice.t byte) (n : Z) : outcome Z :=
  let k := Z.to_nat ((n + 7) / 8) in
  if (k <=? Slice.len buf)%nat then Ok (le_uint (take k (Slice.visible buf)))
  else Panic (PanicIndex (Z.of_nat (Slice.len buf)) (Slice.len buf)).

(** ** Images *)

Inductive color : Type :=
  | NRGBA (r g b a : Z).                       (* color.NRGBA *)

(** [image.Rect(x0, y0, x1, y1)]: the corners are put in order. *)
Record Rectangle : Type := mkRect { MinX : Z; MinY : Z; MaxX : Z; MaxY : Z }.

Definition imageRect (x0 y0 x1 y1 : Z) : Rectangle :=
  let '(x0, x1) := if x1 <? x0 then (x1, x0) else (x0, x1) in
  let '(y0, y1) := if y1 <? y0 then (y1, y0) else (y0, y1) in
  mkRect x0 y0 x1 y1.

(** The lazily decoded surface [img] of the uncompressed path. *)
Record img : Type := mkImg {
  h : Header.t;
  buf : Slice.t byte;
  rBit : Z; gBit : Z; bBit : Z; aBit : Z;
  stride : Z; pitch : Z
}.

(** [image.RGBA]. *)
Record imageRGBA : Type := mkImageRGBA {
  Pix : list Z; Stride : Z; Rect : Rectangle
}.

Inductive image : Type :=
  | ImageRGBA (m : imageRGBA)
  | ImageImg (m : img).

(** [img.At]. *)
Definition At (i : img) (x y : Z) : outcome color :=
  let pf := Header.pixelFormat (h i) in
  let arrPsn := iadd (imul (pitch i) y) (imul (stride i) x) in
  try! s := Slice.from (buf i) arrPsn in
  try! d := readBits s (PixelFormat.rgbBitCount pf) in
  let r := u8 (Z.shiftr (Z.land d (PixelFormat.rBitMask pf)) (rBit i)) in
  let g := u8 (Z.shiftr (Z.land d (PixelFormat.gBitMask pf)) (gBit i)) in
  let b := u8 (Z.shiftr (Z.land d (PixelFormat.bBitMask pf)) (bBit i)) in
  let a := u8 (Z.shiftr (Z.land d (PixelFormat.aBitMask pf)) (aBit i)) in
  Ok (NRGBA r g b a).

(** ** Readers

    An [io.Reader] over an in-memory stream is the list of the bytes that
    remain to be read. *)
Definition reader : Type := list byte.

(** [io.ReadFull(r, buf)] for a buffer of [n] bytes. *)
Definition ReadFull (r : reader) (n : Z) : outcome (Slice.t byte) :=
  let k := Z.to_nat n in
  if (k <=? length r)%nat then Ok (Slice.of_list (take k r))
  else if (length r =? 0)%nat then Err ErrEOF
  else Err ErrUnexpectedEOF.

(** ** The decoder entry points *)

Section Decoder.

(** The collaborators that are not part of the verified source: the
    header parser, the BC1 decoder of the package [dxt], the two
    pixel-format flag constants, and the spare capacity that [io.ReadAll]
    leaves behind the bytes it returns (chosen by the run-time's growth
    policy; the spare bytes are zero). *)
Variable readHeader : reader -> outcome (Header.t * reader).
Variable DecodeDXT1 : Slice.t byte -> Z -> Z -> outcome (list Z).
Variable pfAlphaPixels pfRGB : Z.
Variable readAllSpare : nat -> nat.

Definition ReadAll (r : reader) : Slice.t byte :=
  Slice.Make (r ++ replicate (readAllSpare (length r)) x00) (length r).

Definition decodeDXT5DDS (h : Header.t) (r : reader) : outcome image :=
  let imgBytes := ReadAll r in
  try! rgbaPixels := decompressDxt5 imgBytes (Header.width h) (Header.height h) in
  let rgbaBytes := flat_map (fun pixel => [R pixel; G pixel; B pixel; A pixel])
                            rgbaPixels in
  Ok (ImageRGBA (mkImageRGBA rgbaBytes (u32 (4 * Header.width h))
                   (imageRect 0 0 (Header.width h) (Header.height h)))).

Definition decodeUncompressedDDS (h : Header.t) (r : reader) : outcome image :=
  let pf := Header.pixelFormat h in
  if negb (Z.land (PixelFormat.flags pf) (Z.lor pfAlphaPixels pfRGB)
           =? Z.lor pfAlphaPixels pfRGB)
  then Err (ErrUnsupportedPixelFormat (PixelFormat.flags pf))
  else
    let pitch := u32 (u32 (Header.width h * PixelFormat.rgbBitCount pf) + 7) / 8 in
    match ReadFull r (u32 (pitch * Header.height h)) with
    | Ok buf =>
        let stride := PixelFormat.rgbBitCount pf / 8 in
        Ok (ImageImg (mkImg h buf
                        (lowestSetBit (PixelFormat.rBitMask pf))
                        (lowestSetBit (PixelFormat.gBitMask pf))
                        (lowestSetBit (PixelFormat.bBitMask pf))
                        (lowestSetBit (PixelFormat.aBitMask pf))
                        stride pitch))
    | Err e => Err (ErrReadingImage e)
    | Panic p => Panic p
    end.

Definition decodeDXT1DDS (h : Header.t) (r : reader) : outcome image :=
  let imgBytes := ReadAll r in
  try! rgbaBytes := DecodeDXT1 imgBytes (Header.width h) (Header.height h) in
  Ok (ImageRGBA (mkImageRGBA rgbaBytes (u32 (4 * Header.width h))
                   (imageRect 0 0 (Header.width h) (Header.height h)))).

Definition Decode (r : reader) : outcome image :=
  try! hr := readHeader r in
  let '(h, r) := hr in
  let fourCC := PixelFormat.fourCC (Header.pixelFormat h) in
  if fourCC =? compressionTypeNone then decodeUncompressedDDS h r
  else if fourCC =? compressionTypeDXT1 then decodeDXT1DDS h r
  else if fourCC =? compressionTypeDXT5 then decodeDXT5DDS h r
  else Err (ErrUnsupportedCompression fourCC).

End Decoder.

(** ** The surface interface and [DecodeConfig] *)

Inductive colorModel : Type :=                 (* the models of [image/color] *)
  | RGBAModel | RGBA64Model | NRGBAModel | YCbCrModel
  | GrayModel | Gray16Model | AlphaModel.

(** [img.ColorModel]. *)
Definition ColorModel (i : img) : colorModel := NRGBAModel.

(** [img.Bounds]. *)
Definition Bounds (i : img) : Rectangle :=
  imageRect 0 0 (Header.width (h i)) (Header.height (h i)).

(** [image.Config]. *)
Module Config.
Record t : Type := Make { ColorModel : colorModel; Width : Z; Height : Z }.
End Config.

(** What [DecodeConfig] returns: a configuration, the error or panic of
    the header parser, or its own "unrecognized image format" error with
    the values it prints. *)
Inductive configOutcome : Type :=
  | ConfigOk (c : Config.t)
  | ConfigHeaderErr (e : error)
  | ConfigPanic (p : panic)
  | ConfigUnrecognized (hasAlpha hasRGB hasYUV hasLuminance : bool) (flags : Z).

Section DecoderConfig.

(** The header parser and the six pixel-format flag constants, declared
    in the file that is not part of the verified source. *)
Variable readHeader : reader -> outcome (Header.t * reader).
Variable pfAlphaPixels pfAlpha pfFourCC pfRGB pfYUV pfLuminance : Z.

Definition DecodeConfig (r : reader) : configOutcome :=
  match readHeader r with
  | Err e => ConfigHeaderErr e
  | Panic p => ConfigPanic p
  | Ok (h, _) =>
      let c m := ConfigOk (Config.Make m (Header.width h) (Header.height h)) in
      let pf := Header.pixelFormat h in
      let flags := PixelFormat.flags pf in
      let hasAlpha := (Z.land flags pfAlphaPixels =? pfAlphaPixels)
                      || (Z.land flags pfAlpha =? pfAlpha) in
      let hasRGB := (Z.land flags pfFourCC =? pfFourCC)
                    || (Z.land flags pfRGB =? pfRGB) in
      let hasYUV := Z.land flags pfYUV =? pfYUV in
      let hasLuminance := Z.land flags pfLuminance =? pfLuminance in
      let rgbBitCount := PixelFormat.rgbBitCount pf in
      if hasRGB && (rgbBitCount =? 32) then c RGBAModel
      else if hasRGB && (rgbBitCount =? 64) then c RGBA64Model
      else if hasYUV && (rgbBitCount =? 24) then c YCbCrModel
      else if hasLuminance && (rgbBitCount =? 8) then c GrayModel
      else if hasLuminance && (rgbBitCount =? 16) then c Gray16Model
      else if hasAlpha && (rgbBitCount =? 8) then c AlphaModel
      else if hasAlpha && (rgbBitCount =? 16) then c AlphaModel
      else ConfigUnrecognized hasAlpha hasRGB hasYUV hasLuminance flags
  end.

End DecoderConfig.

(** * Auxiliary definitions

    Functions and sample data that the statements below refer to. *)

(** The block that [parseBlock] builds, as a function of the bytes of the
    backing array. *)
Definition blockOfBytes (bs : list byte) : block :=
  let bits := take 6 (drop 2 bs) in
  mkBlock (le_uint (take 1 bs)) (le_uint (take 1 (drop 1 bs)))
          (alphaCode1Of bits) (alphaCode2Of bits)
          (Rgb565toargb8888 (le_uint (take 2 (drop 8 bs))))
          (Rgb565toargb8888 (le_uint (take 2 (drop 10 bs))))
          (le_uint (take 4 (drop 12 bs))).

(** The sixteen texel writes of a block, for an arbitrary texel function. *)
Definition blockWrites (f : Z -> Z -> RGBA) (offsetX offsetY width : Z)
    (unpacked : list RGBA) : outcome (list RGBA) :=
  for_loop blockSize (fun j unpacked =>
    for_loop blockSize (fun i unpacked =>
      if iadd offsetX i <? width
      then store unpacked (texelIndex offsetX offsetY width i j) (f i j)
      else Ok unpacked) unpacked) unpacked.

(** The positions that some block writes: the index expression of a texel
    that passes the guard, over the blocks the two loops visit. *)
Definition written (width height : Z) (k : Z) : Prop :=
  exists bx by_ i j,
    0 <= bx < idiv (iadd width 3) blockSize /\
    0 <= by_ < idiv (iadd height 3) blockSize /\
    0 <= i < blockSize /\ 0 <= j < blockSize /\
    iadd (imul bx blockSize) i < width /\
    k = texelIndex (imul bx blockSize) (imul by_ blockSize) width i j.

(** The bytes of pixel [(x, y)] in the pixel data [data] that follows the
    header, with the pitch and the stride taken over the exact integers:
    [pitch = ceil(width*rgbBitCount/8)], [stride = rgbBitCount/8], and
    [rgbBitCount] bits rounded up to whole bytes. *)
Definition pixelBytes (h : Header.t) (data : list byte) (x y : Z) : list byte :=
  let bc := PixelFormat.rgbBitCount (Header.pixelFormat h) in
  let pitch := (Header.width h * bc + 7) / 8 in
  let stride := bc / 8 in
  take (Z.to_nat ((bc + 7) / 8)) (drop (Z.to_nat (y * pitch + x * stride)) data).

(** The colour that C8 describes for pixel [(x, y)]: the bytes read
    as an unsigned little-endian integer [d], and each channel
    [(d & mask) >> bitOffset(mask)] truncated to 8 bits. *)
Definition AtSpec (h : Header.t) (data : list byte) (x y : Z) : color :=
  let pf := Header.pixelFormat h in
  let d := le_uint (pixelBytes h data x y) in
  let chan mask := u8 (Z.shiftr (Z.land d mask) (lowestSetBit mask)) in
  NRGBA (chan (PixelFormat.rBitMask pf)) (chan (PixelFormat.gBitMask pf))
        (chan (PixelFormat.bBitMask pf)) (chan (PixelFormat.aBitMask pf)).

(** A block whose alpha endpoints are 255 and 0 and whose first texel has
    alpha code 2; the colour half is zero. *)
Definition alphaProbe : list byte :=
  [xff; x00; x02; x00; x00; x00; x00; x00;
   x00; x00; x00; x00; x00; x00; x00; x00].

(** A block whose alpha table has all 48 bits set except bit 15. *)
Definition tableProbe : list byte :=
  [xff; x00; xff; x7f; xff; xff; xff; xff;
   x00; x00; x00; x00; x00; x00; x00; x00].

(** Sample collaborators for the instances below: the header of a 4x4
    surface of 32-bit pixels with a given tag and flags, a parser whose
    one-byte header selects among five such headers, and a BC1 decoder
    that always fails. *)
Definition sampleFormat (tag : Z) (flags : Z) : Header.t :=
  Header.Make 4 4
    (PixelFormat.Make flags tag 32 0xff 0xff00 0xff0000 0xff000000).

Definition sampleReadHeader (r : reader) : outcome (Header.t * reader) :=
  match r with
  | [] => Err ErrEOF
  | b :: r' =>
      if byte_val b =? 0 then Ok (sampleFormat compressionTypeNone 0x41, r')
      else if byte_val b =? 1 then Ok (sampleFormat compressionTypeDXT1 0x4, r')
      else if byte_val b =? 5 then Ok (sampleFormat compressionTypeDXT5 0x4, r')
      else if byte_val b =? 9 then Ok (sampleFormat compressionTypeNone 0x40, r')
      else Ok (sampleFormat (le_uint [x44; x58; x54; x33]) 0x4, r')
  end.

Definition sampleDecodeDXT1 (packed : Slice.t byte) (width height : Z)
    : outcome (list Z) :=
  Err (ErrForeign 1).

(** The pixel bytes of a materialized surface. *)
Definition Pix_of (o : outcome image) : option (list Z) :=
  match o with
  | Ok (ImageRGBA m) => Some (Pix m)
  | _ => None
  end.

(** A 2x1 surface of 32-bit pixels, and eight bytes of pixel data. *)
Definition smallHeader : Header.t :=
  Header.Make 1 2
    (PixelFormat.Make 0x41 0 32 0xff 0xff00 0xff0000 0xff000000).

Definition eightBytes : list byte :=
  [x01; x02; x03; x04; x05; x06; x07; x08].

(** A header that declares a row of [2^29+1] 32-bit pixels: the row size
    in bits does not fit in 32 bits. *)
Definition wideHeader : Header.t :=
  Header.Make 2 (2 ^ 29 + 1)
    (PixelFormat.Make 0x41 0 32 0xff 0xff00 0xff0000 0xff000000).

(** The pixel that the BC3 data [packed] encodes at [(x, y)] of an image
    of the given width: texel [(x mod 4, y mod 4)] of the block parsed from
    the sixteen bytes at offset [16 * ((y/4) * ceil(width/4) + x/4)]. *)
Definition expectedPixel (packed : Slice.t byte) (width x y : Z) : RGBA :=
  texel (blockOfBytes
           (drop (Z.to_nat (16 * (y / 4 * ((width + 3) / 4) + x / 4)))
                 (Slice.visible packed)))
        (x mod 4) (y mod 4).

(** The pixel buffer [u] of a [width] x [height] image holds the pixels
    [pix] at every in-bounds coordinate that satisfies [P]. *)
Definition holds (width height : Z) (pix : Z -> Z -> RGBA)
    (P : Z -> Z -> Prop) (u : list RGBA) : Prop :=
  Z.of_nat (length u) = width * height /\
  forall x y, 0 <= x < width -> 0 <= y < height -> P x y ->
              u !! Z.to_nat (y * width + x) = Some (pix x y).

(** The body of the loop over the block rows in [decompressDxt5]. *)
Definition rowBody (packed : Slice.t byte) (width blockCountX j : Z)
    (st : Z * list RGBA) : outcome (Z * list RGBA) :=
  let '(offset, unpacked) := st in
  try! unpacked := for_loop blockCountX
                     (decodeBlockAt packed width offset j) unpacked in
  Ok (iadd offset (imul blockCountX 16), unpacked).

(** The colour channels are [uint8] values. *)
Definition isByteColour (c : RGBA) : Prop :=
  0 <= R c < 256 /\ 0 <= G c < 256 /\ 0 <= B c < 256.

(** The pitch and the size of the pixel data as [decodeUncompressedDDS]
    computes them, in the unsigned 32-bit arithmetic of the header. *)
Definition pitch32 (h : Header.t) : Z :=
  u32 (u32 (Header.width h * PixelFormat.rgbBitCount (Header.pixelFormat h)) + 7) / 8.

Definition size32 (h : Header.t) : Z := u32 (pitch32 h * Header.height h).

(** A 2x2 surface of 32-bit pixels, and sixteen bytes of pixel data. *)
Definition squareHeader : Header.t :=
  Header.Make 2 2
    (PixelFormat.Make 0x41 0 32 0xff 0xff00 0xff0000 0xff000000).

Definition sixteenBytes : list byte :=
  [x01; x02; x03; x04; x05; x06; x07; x08;
   x09; x0a; x0b; x0c; x0d; x0e; x0f; x10].

(** * Properties *)

(** ** Integers *)

Lemma int64_small (z : Z) : - 2 ^ 63 <= z < 2 ^ 63 -> int64 z = z.
Proof.
  intros Hz. unfold int64.
  rewrite Z.mod_small by lia. lia.
Qed.

Lemma int64_range (z : Z) : - 2 ^ 63 <= int64 z < 2 ^ 63.
Proof.
  unfold int64.
  pose proof (Z.mod_pos_bound (z + 2 ^ 63) (2 ^ 64) ltac:(lia)). lia.
Qed.

Lemma byte_val_range (b : byte) : 0 <= byte_val b < 256.
Proof.
  unfold byte_val. pose proof (Byte.to_N_bounded b). lia.
Qed.

Lemma le_uint_range (bs : list byte) :
  0 <= le_uint bs < 256 ^ Z.of_nat (length bs).
Proof.
  induction bs as [|b bs IH]; simpl le_uint; simpl length.
  - simpl. lia.
  - rewrite Nat2Z.inj_succ, Z.pow_succ_r by lia.
    pose proof (byte_val_range b). lia.
Qed.

(** ** Outcomes and loops *)

Lemma bind_Ok_inv {A B} (c : outcome A) (k : A -> outcome B) (b : B) :
  bind c k = Ok b -> exists a, c = Ok a /\ k a = Ok b.
Proof.
  destruct c as [a| |]; simpl; intros H; try discriminate. eauto.
Qed.

Lemma bind_no_err {A B} (c : outcome A) (k : A -> outcome B) (e : error) :
  (forall e', c <> Err e') -> (forall a e', k a <> Err e') ->
  bind c k <> Err e.
Proof.
  intros Hc Hk. destruct c as [a|e'|p]; simpl.
  - apply Hk.
  - exfalso. exact (Hc e' eq_refl).
  - discriminate.
Qed.

(** A loop whose body preserves [I] on normal return preserves [I]. *)
Lemma for_from_inv {S} (I : S -> Prop) (body : Z -> S -> outcome S) :
  forall n i s r,
    I s ->
    (forall k s s', i <= k < i + Z.of_nat n -> I s -> body k s = Ok s' -> I s') ->
    for_from n i body s = Ok r -> I r.
Proof.
  induction n as [|n IH]; intros i s r Hs Hbody Hrun; simpl in Hrun.
  - injection Hrun as <-. exact Hs.
  - apply bind_Ok_inv in Hrun as (s' & Hb & Hrest).
    apply (IH (i + 1) s' r); [| |exact Hrest].
    + apply (Hbody i s s'); [lia|exact Hs|exact Hb].
    + intros k t t' Hk. apply Hbody. lia.
Qed.

(** A loop whose body never returns an error never returns an error. *)
Lemma for_from_no_err {S} (body : Z -> S -> outcome S) :
  (forall k s e, body k s <> Err e) ->
  forall n i s e, for_from n i body s <> Err e.
Proof.
  intros Hbody. induction n as [|n IH]; intros i s e; simpl.
  - discriminate.
  - destruct (body i s) as [s'|e'|p] eqn:Hb; simpl.
    + apply IH.
    + exfalso. exact (Hbody _ _ _ Hb).
    + discriminate.
Qed.

(** Two loops agree when their bodies agree on the states that an
    invariant of the first one allows. *)
Lemma for_from_ext_inv {S} (I : Z -> S -> Prop) (body1 body2 : Z -> S -> outcome S) :
  forall n i s,
    I i s ->
    (forall k s, i <= k < i + Z.of_nat n -> I k s -> body1 k s = body2 k s) ->
    (forall k s s', i <= k < i + Z.of_nat n -> I k s -> body1 k s = Ok s' -> I (k + 1) s') ->
    for_from n i body1 s = for_from n i body2 s.
Proof.
  induction n as [|n IH]; intros i s Hs Heq Hpres; simpl; [reflexivity|].
  rewrite <- (Heq i s) by (lia || exact Hs).
  destruct (body1 i s) as [s'|e|p] eqn:Hb; simpl; try reflexivity.
  apply IH.
  - apply (Hpres i s s'); [lia|exact Hs|exact Hb].
  - intros k t Hk. apply Heq. lia.
  - intros k t t' Hk. apply Hpres. lia.
Qed.

(** ** Slices and the block parser *)

(** Re-slicing up to [hi] succeeds exactly when [hi] is within the
    capacity, and the read that follows then always finds its bytes. *)
Lemma readAt_eq (p : Slice.t byte) (lo hi : Z) (n : nat) :
  0 <= lo -> Z.of_nat n = hi - lo ->
  readAt p lo hi n =
  if hi <=? Z.of_nat (Slice.cap p)
  then Ok (take n (drop (Z.to_nat lo) (Slice.arr p)))
  else Panic PanicSliceBounds.
Proof.
  intros Hlo Hn. unfold readAt, Slice.range.
  replace (0 <=? lo) with true by (symmetry; apply Z.leb_le; lia).
  replace (lo <=? hi) with true by (symmetry; apply Z.leb_le; lia).
  simpl andb.
  destruct (Z.leb_spec hi (Z.of_nat (Slice.cap p))) as [Hc|Hc]; simpl; [|reflexivity].
  unfold binaryRead, Slice.visible; simpl.
  replace (Z.to_nat (hi - lo)) with n by lia.
  assert (Hlen : length (take n (drop (Z.to_nat lo) (Slice.arr p))) = n).
  { rewrite length_take, length_drop. unfold Slice.cap in Hc. lia. }
  rewrite Hlen, Nat.leb_refl.
  f_equal. apply take_ge. lia.
Qed.

Lemma parseBlock_eq (p : Slice.t byte) :
  parseBlock p =
  if 16 <=? Z.of_nat (Slice.cap p) then Ok (blockOfBytes (Slice.arr p))
  else Panic PanicSliceBounds.
Proof.
  unfold parseBlock.
  rewrite !readAt_eq by lia.
  repeat match goal with
         | |- context [?a <=? Z.of_nat (Slice.cap p)] =>
             destruct (Z.leb_spec a (Z.of_nat (Slice.cap p)))
         end; simpl; try reflexivity; lia.
Qed.

Lemma parseBlock_no_err (p : Slice.t byte) (e : error) : parseBlock p <> Err e.
Proof.
  rewrite parseBlock_eq. destruct (16 <=? _); discriminate.
Qed.

Lemma take_drop_take {A} (l : list A) (n k m : nat) :
  (k + n <= m)%nat -> take n (drop k (take m l)) = take n (drop k l).
Proof.
  intros H. apply list_eq. intros i.
  destruct (decide (i < n)%nat) as [Hi|Hi].
  - rewrite !lookup_take_lt, !lookup_drop by lia.
    rewrite lookup_take_lt by lia. reflexivity.
  - rewrite !lookup_take_ge by lia. reflexivity.
Qed.

(** Only the first sixteen bytes matter. *)
Lemma blockOfBytes_take (bs : list byte) (m : nat) :
  (16 <= m)%nat -> blockOfBytes (take m bs) = blockOfBytes bs.
Proof.
  intros Hm. unfold blockOfBytes.
  rewrite !(take_drop_take bs _ _ m) by lia.
  rewrite take_take. replace (1 `min` m)%nat with 1%nat by lia.
  reflexivity.
Qed.

Lemma decompressDxt5Block_eq (p : Slice.t byte) (offsetX offsetY width : Z) :
  decompressDxt5Block p offsetX offsetY width =
  fun unpacked =>
    if 16 <=? Z.of_nat (Slice.cap p)
    then blockWrites (texel (blockOfBytes (Slice.arr p))) offsetX offsetY width unpacked
    else Panic PanicSliceBounds.
Proof.
  unfold decompressDxt5Block. rewrite parseBlock_eq.
  destruct (16 <=? _); reflexivity.
Qed.

Lemma Slice_from_eq {A} (p : Slice.t A) (lo : Z) :
  0 <= lo <= Z.of_nat (Slice.len p) -> Slice.wf p ->
  Slice.from p lo =
  Ok (Slice.Make (drop (Z.to_nat lo) (Slice.arr p)) (Slice.len p - Z.to_nat lo)).
Proof.
  intros Hlo [Hwf _]. unfold Slice.from, Slice.range, Slice.cap in *.
  replace (0 <=? lo) with true by (symmetry; apply Z.leb_le; lia).
  replace (lo <=? _) with true by (symmetry; apply Z.leb_le; lia).
  replace (_ <=? _) with true by (symmetry; apply Z.leb_le; lia).
  simpl. do 2 f_equal. lia.
Qed.

(** A block that lies within the length of the buffer is decoded from the
    visible bytes alone. *)
Lemma decodeBlockAt_eq (p : Slice.t byte) (width offset j i : Z) :
  Slice.wf p ->
  0 <= iadd offset (imul i 16) ->
  iadd offset (imul i 16) + 16 <= Z.of_nat (Slice.len p) ->
  decodeBlockAt p width offset j i =
  blockWrites
    (texel (blockOfBytes
              (drop (Z.to_nat (iadd offset (imul i 16))) (Slice.visible p))))
    (imul i blockSize) (imul j blockSize) width.
Proof.
  intros Hwf H0 H16. unfold decodeBlockAt.
  set (off := iadd offset (imul i 16)) in *.
  rewrite Slice_from_eq by (lia || exact Hwf). cbn [bind].
  rewrite decompressDxt5Block_eq.
  destruct Hwf as [Hwf _]. unfold Slice.cap, Slice.visible in *. simpl.
  replace (16 <=? _) with true
    by (symmetry; apply Z.leb_le; rewrite length_drop; lia).
  replace (drop (Z.to_nat off) (take (Slice.len p) (Slice.arr p)))
    with (take (Slice.len p - Z.to_nat off) (drop (Z.to_nat off) (Slice.arr p))).
  - rewrite blockOfBytes_take by lia. reflexivity.
  - rewrite take_drop_commute. do 2 f_equal. lia.
Qed.

(** ** Bit-level facts *)

Ltac bits :=
  Z.bitblast;
  try solve [subst;
             repeat match goal with
                    | |- context [Z.testbit ?a ?n] =>
                        rewrite (Z.testbit_neg_r a n) by lia
                    end;
             btauto].

Lemma lor_shiftl_add (a b k : Z) :
  0 <= k -> 0 <= a < 2 ^ k -> Z.lor a (Z.shiftl b k) = a + 2 ^ k * b.
Proof.
  intros Hk Ha. rewrite Z.or_to_plus.
  - rewrite Z.shiftl_mul_pow2 by lia. lia.
  - rewrite <- (Z.mod_small a (2 ^ k)) by lia. bits.
Qed.

Lemma u8_small (z : Z) : 0 <= z < 2 ^ 8 -> u8 z = z.
Proof. intros H. unfold u8. apply Z.mod_small. exact H. Qed.

Lemma u16_small (z : Z) : 0 <= z < 2 ^ 16 -> u16 z = z.
Proof. intros H. unfold u16. apply Z.mod_small. exact H. Qed.

Lemma u32_small (z : Z) : 0 <= z < 2 ^ 32 -> u32 z = z.
Proof. intros H. unfold u32. apply Z.mod_small. exact H. Qed.

(** The two words of the alpha index table are the little-endian values
    of bytes 0-1 and 2-5 of the table: the casts and shifts of the source
    lose nothing. *)
Lemma alphaCode2Of_le (t0 t1 t2 t3 t4 t5 : byte) :
  alphaCode2Of [t0; t1; t2; t3; t4; t5] = le_uint [t0; t1].
Proof.
  unfold alphaCode2Of. cbn [nth le_uint].
  pose proof (byte_val_range t0). pose proof (byte_val_range t1).
  rewrite u16_small by (rewrite Z.shiftl_mul_pow2; lia).
  rewrite lor_shiftl_add by lia. lia.
Qed.

Lemma alphaCode1Of_le (t0 t1 t2 t3 t4 t5 : byte) :
  alphaCode1Of [t0; t1; t2; t3; t4; t5] = le_uint [t2; t3; t4; t5].
Proof.
  unfold alphaCode1Of. cbn [nth le_uint].
  pose proof (byte_val_range t2). pose proof (byte_val_range t3).
  pose proof (byte_val_range t4). pose proof (byte_val_range t5).
  rewrite !u32_small by (rewrite Z.shiftl_mul_pow2; lia).
  rewrite (lor_shiftl_add (byte_val t2)) by lia.
  rewrite (lor_shiftl_add (_ + _) (byte_val t4)) by lia.
  rewrite (lor_shiftl_add (_ + _) (byte_val t5)) by lia.
  lia.
Qed.

(** The six table bytes as one 48-bit little-endian word. *)
Lemma le_uint_table (t0 t1 t2 t3 t4 t5 : byte) :
  le_uint [t0; t1; t2; t3; t4; t5] =
  Z.lor (le_uint [t0; t1]) (Z.shiftl (le_uint [t2; t3; t4; t5]) 16).
Proof.
  pose proof (le_uint_range [t0; t1]) as H. simpl length in H.
  rewrite lor_shiftl_add by lia. cbn [le_uint]. lia.
Qed.

Lemma code_low (L H idx : Z) :
  0 <= L < 2 ^ 16 -> 0 <= idx <= 13 ->
  Z.land (Z.shiftr L idx) 7 = Z.land (Z.shiftr (Z.lor L (Z.shiftl H 16)) idx) 7.
Proof.
  intros HL Hidx. rewrite <- (Z.mod_small L (2 ^ 16)) by lia.
  change 7 with (Z.ones 3). bits.
Qed.

Lemma code_straddle (L H : Z) :
  0 <= L < 2 ^ 16 ->
  Z.lor (Z.shiftr L 15) (Z.land (Z.shiftl H 1) 6) =
  Z.land (Z.shiftr (Z.lor L (Z.shiftl H 16)) 15) 7.
Proof.
  intros HL. rewrite <- (Z.mod_small L (2 ^ 16)) by lia.
  change 7 with (Z.ones 3). change 6 with (Z.shiftl (Z.ones 2) 1). bits.
Qed.

(** The 32-bit wrap of [alphaCode1 << 1] does not reach the mask [0x06]. *)
Lemma code_straddle_u32 (H : Z) :
  Z.land (u32 (Z.shiftl H 1)) 6 = Z.land (Z.shiftl H 1) 6.
Proof.
  unfold u32. change 6 with (Z.shiftl (Z.ones 2) 1). bits.
Qed.

Lemma code_high (L H idx : Z) :
  0 <= L < 2 ^ 16 -> 16 <= idx ->
  Z.land (Z.shiftr H (idx - 16)) 7 =
  Z.land (Z.shiftr (Z.lor L (Z.shiftl H 16)) idx) 7.
Proof.
  intros HL Hidx. rewrite <- (Z.mod_small L (2 ^ 16)) by lia.
  change 7 with (Z.ones 3). bits.
Qed.

Lemma alphaCodeAt_bits (t0 t1 t2 t3 t4 t5 : byte) (i j : Z) :
  0 <= i < 4 -> 0 <= j < 4 ->
  let table := [t0; t1; t2; t3; t4; t5] in
  let low16 := le_uint (take 2 table) in
  let high32 := le_uint (drop 2 table) in
  let idx := 3 * (4 * j + i) in
  let c := alphaCodeAt (alphaCode1Of table) (alphaCode2Of table) i j in
  c = Z.land (Z.shiftr (le_uint table) idx) 7 /\
  (idx <= 12 -> c = Z.land (Z.shiftr low16 idx) 7) /\
  (idx = 15 -> c = Z.lor (Z.shiftr low16 15) (Z.land (Z.shiftl high32 1) 6)) /\
  (18 <= idx -> c = Z.land (Z.shiftr high32 (idx - 16)) 7).
Proof.
  intros Hi Hj table low16 high32 idx c.
  subst c table. rewrite alphaCode1Of_le, alphaCode2Of_le, le_uint_table.
  cbn [take drop] in low16, high32. fold low16 high32.
  assert (HL : 0 <= low16 < 2 ^ 16).
  { pose proof (le_uint_range [t0; t1]) as H. simpl length in H.
    subst low16. lia. }
  clearbody low16 high32.
  unfold alphaCodeAt, uint. rewrite Z.mod_small by lia. fold idx.
  destruct (Z.leb_spec idx 12) as [H12|H12];
    [|destruct (Z.eqb_spec idx 15) as [H15|H15]].
  - repeat split; intros; try lia.
    apply code_low; lia.
  - rewrite code_straddle_u32. rewrite H15.
    repeat split; intros; try lia.
    apply code_straddle; lia.
  - assert (18 <= idx) by (subst idx; lia).
    unfold uint. rewrite (Z.mod_small (idx - 16)) by (subst idx; lia).
    repeat split; intros; try lia.
    apply code_high; lia.
Qed.

Lemma list_length_6 {A} (l : list A) :
  length l = 6%nat -> exists a b c d e f, l = [a; b; c; d; e; f].
Proof.
  intros H.
  destruct l as [|a [|b [|c [|d [|e [|f [|g l]]]]]]]; try discriminate.
  eauto 7.
Qed.

(** ** The texel interpolation formulas *)

(** With the 7-step table the source computes the weighted sum in
    [uint8]: it is reduced modulo 256 before the division by 7. *)
Lemma finalAlphaOf_7step (alpha0 alpha1 alphaCode : Z) :
  0 <= alpha0 < 256 -> 0 <= alpha1 < 256 -> alpha1 < alpha0 ->
  2 <= alphaCode <= 7 ->
  finalAlphaOf alpha0 alpha1 alphaCode =
  (((8 - alphaCode) * alpha0 + (alphaCode - 1) * alpha1) mod 256) / 7.
Proof.
  intros H0 H1 Hlt Hc. unfold finalAlphaOf.
  replace (alphaCode =? 0) with false by (symmetry; apply Z.eqb_neq; lia).
  replace (alphaCode =? 1) with false by (symmetry; apply Z.eqb_neq; lia).
  replace (alpha1 <? alpha0) with true by (symmetry; apply Z.ltb_lt; lia).
  unfold div8, add8, mul8, sub8.
  rewrite (u8_small alphaCode) by lia.
  rewrite (u8_small (8 - alphaCode)), (u8_small (alphaCode - 1)) by lia.
  unfold u8. change (2 ^ 8) with 256.
  rewrite <- Zplus_mod. reflexivity.
Qed.

(** The weighted sum is exact only while it stays below 256. *)
Lemma finalAlphaOf_7step_exact (alpha0 alpha1 alphaCode : Z) :
  0 <= alpha0 < 256 -> 0 <= alpha1 < 256 -> alpha1 < alpha0 ->
  2 <= alphaCode <= 7 ->
  (8 - alphaCode) * alpha0 + (alphaCode - 1) * alpha1 < 256 ->
  finalAlphaOf alpha0 alpha1 alphaCode =
  ((8 - alphaCode) * alpha0 + (alphaCode - 1) * alpha1) / 7.
Proof.
  intros H0 H1 Hlt Hc Hsmall.
  rewrite finalAlphaOf_7step by assumption.
  rewrite Z.mod_small by nia. reflexivity.
Qed.

(** C2 (code defect).  The claim asks for the 7-step alpha
    [((8-code)*alpha0 + (code-1)*alpha1) / 7] over the exact integers, 218
    for [alpha0 = 255], [alpha1 = 0], [code = 2].  The source evaluates the
    expression in [uint8]: [6*255] wraps to 250 and the texel gets alpha
    35, also when a whole 4x4 image is decoded from such a block. *)
Theorem finalAlpha_7step_wraps :
  finalAlphaOf 255 0 2 = 35 /\
  ((8 - 2) * 255 + (2 - 1) * 0) / 7 = 218 /\
  exists out, decompressDxt5 (Slice.of_list alphaProbe) 4 4 = Ok out /\
              A <$> out !! 0%nat = Some 35.
Proof.
  split; [reflexivity|]. split; [reflexivity|].
  eexists. split; [vm_compute; reflexivity|reflexivity].
Qed.

(** Colour codes 0 and 1 select the endpoints unchanged. *)
Lemma finalColourOf_endpoints (colour0 colour1 : RGBA) :
  finalColourOf colour0 colour1 0 = colour0 /\
  finalColourOf colour0 colour1 1 = colour1.
Proof. split; reflexivity. Qed.

(** Colour codes 2 and 3 blend each channel in [uint8]. *)
Lemma finalColourOf_blend (colour0 colour1 : RGBA) :
  finalColourOf colour0 colour1 2 =
    mkRGBA (((2 * R colour0) mod 256 + R colour1) mod 256 / 3)
           (((2 * G colour0) mod 256 + G colour1) mod 256 / 3)
           (((2 * B colour0) mod 256 + B colour1) mod 256 / 3) 0 /\
  finalColourOf colour0 colour1 3 =
    mkRGBA ((R colour0 + (2 * R colour1) mod 256) mod 256 / 3)
           ((G colour0 + (2 * G colour1) mod 256) mod 256 / 3)
           ((B colour0 + (2 * B colour1) mod 256) mod 256 / 3) 0.
Proof. split; reflexivity. Qed.

(** C3 (code defect).  The claim asks for the code-2 colour
    [(2*c0 + c1) / 3] per channel over the exact integers, (170, 85, 0)
    for [c0 = (255,0,0)] and [c1 = (0,255,0)].  The channels are [uint8]
    in the source: [2*255] wraps to 254 and the red channel becomes 84.
    The codes 0 and 1 return the endpoints as claimed. *)
Theorem finalColour_blend_wraps :
  finalColourOf (mkRGBA 255 0 0 0) (mkRGBA 0 255 0 0) 2 = mkRGBA 84 85 0 0 /\
  ((2 * 255 + 0) / 3, (2 * 0 + 255) / 3, (2 * 0 + 0) / 3) = (170, 85, 0) /\
  finalColourOf (mkRGBA 0 255 0 0) (mkRGBA 255 0 0 0) 3 = mkRGBA 84 85 0 0.
Proof. repeat split. Qed.

(** ** The alpha index table *)

(** C4.  For every block that parses and every texel [(i, j)] of it, the
    alpha code the source extracts is the three bits at position
    [idx = 3*(4*j+i)] of the 48-bit little-endian word formed by the bytes
    2-7 of the block, and it is given by the three formulas of the claim
    over [low16] (bytes 2-3) and [high32] (bytes 4-7). *)
Theorem alphaCodeAt_packing (packed : Slice.t byte) (b : block) (i j : Z) :
  parseBlock packed = Ok b ->
  0 <= i < 4 -> 0 <= j < 4 ->
  let table := take 6 (drop 2 (Slice.arr packed)) in
  let low16 := le_uint (take 2 table) in
  let high32 := le_uint (drop 2 table) in
  let idx := 3 * (4 * j + i) in
  let c := alphaCodeAt (alphaCode1 b) (alphaCode2 b) i j in
  c = Z.land (Z.shiftr (le_uint table) idx) 7 /\
  (idx <= 12 -> c = Z.land (Z.shiftr low16 idx) 7) /\
  (idx = 15 -> c = Z.lor (Z.shiftr low16 15) (Z.land (Z.shiftl high32 1) 6)) /\
  (18 <= idx -> c = Z.land (Z.shiftr high32 (idx - 16)) 7).
Proof.
  intros Hparse Hi Hj.
  rewrite parseBlock_eq in Hparse.
  destruct (Z.leb_spec 16 (Z.of_nat (Slice.cap packed))) as [Hcap|Hcap];
    [|discriminate].
  injection Hparse as <-. unfold blockOfBytes; cbn [alphaCode1 alphaCode2].
  destruct (list_length_6 (take 6 (drop 2 (Slice.arr packed))))
    as (t0 & t1 & t2 & t3 & t4 & t5 & ->).
  { rewrite length_take, length_drop. unfold Slice.cap in Hcap. lia. }
  apply alphaCodeAt_bits; assumption.
Qed.

Lemma alphaCodeAt_packing_witness :
  alphaCodeAt (alphaCode1 (blockOfBytes tableProbe))
              (alphaCode2 (blockOfBytes tableProbe)) 1 1 = 6.
Proof.
  pose proof (alphaCodeAt_packing (Slice.of_list tableProbe)
                (blockOfBytes tableProbe) 1 1 eq_refl
                ltac:(lia) ltac:(lia)) as H.
  cbv zeta in H. destruct H as [H _]. rewrite H. reflexivity.
Defined.

(** ** Edge clipping *)

Lemma for_loop_2 {S} (body : Z -> S -> outcome S) (s : S) :
  for_loop 2 body s = try! s1 := body 0 s in try! s2 := body 1 s1 in Ok s2.
Proof. reflexivity. Qed.

(** The first block row of a 5x5 image is written without incident,
    whatever the texels are; the first block of the second row then
    indexes the 25-pixel buffer at 25. *)
Lemma rows_5x5 (f1 f2 : Z -> Z -> RGBA) :
  exists u2,
    (try! u1 := blockWrites f1 0 0 5 (replicate 25 zeroRGBA) in
     try! u2 := blockWrites f2 4 0 5 u1 in Ok u2) = Ok u2 /\
    forall f3, blockWrites f3 0 4 5 u2 = Panic (PanicIndex 25 25).
Proof.
  eexists. split.
  - vm_compute. reflexivity.
  - intros f3. vm_compute. reflexivity.
Qed.

(** C1 (code defect).  The claim asks that a texel is written only when
    its coordinate is inside [0,width) x [0,height), so that a 5x5 image
    decodes to 25 pixels without a crash.  The source guards the write
    with [offsetX+i < width] only: for every buffer that holds the four
    blocks of a 5x5 image, the texel (0,1) of block (0,1) indexes the
    25-pixel buffer at (4+1)*5+0 = 25 and the decoder panics. *)
Theorem decompressDxt5_5x5_panics (packed : Slice.t byte) :
  Slice.wf packed -> (64 <= Slice.len packed)%nat ->
  decompressDxt5 packed 5 5 = Panic (PanicIndex 25 25).
Proof.
  intros Hwf Hlen. unfold decompressDxt5.
  change (imul 5 5) with 25. change (idiv (iadd 5 3) blockSize) with 2.
  change (makeRGBA 25) with (Ok (replicate 25 zeroRGBA)). cbn [bind].
  rewrite for_loop_2. cbv beta iota.
  rewrite for_loop_2.
  rewrite !decodeBlockAt_eq by (try exact Hwf; vm_compute iadd; lia).
  change (imul 0 blockSize) with 0. change (imul 1 blockSize) with 4.
  match goal with
  | |- context [blockWrites ?f1 0 0 5 _] =>
      match goal with
      | |- context [blockWrites ?f2 4 0 5 _] =>
          destruct (rows_5x5 f1 f2) as (u2 & Hrow & Hpanic)
      end
  end.
  rewrite Hrow. cbn [bind].
  rewrite for_loop_2.
  rewrite decodeBlockAt_eq by (try exact Hwf; vm_compute iadd; lia).
  change (imul 0 blockSize) with 0. change (imul 1 blockSize) with 4.
  rewrite Hpanic. reflexivity.
Qed.

Lemma decompressDxt5_5x5_panics_witness :
  decompressDxt5 (Slice.of_list (replicate 64 x00)) 5 5 =
  Panic (PanicIndex 25 25).
Proof.
  apply decompressDxt5_5x5_panics.
  - split; [unfold Slice.cap; simpl; lia | vm_compute; reflexivity].
  - simpl. lia.
Defined.

(** A width that is not a multiple of 4 is clipped as the claim says, as
    long as the height is one. *)
Example decompressDxt5_5x4 :
  decompressDxt5 (Slice.of_list (replicate 32 x00)) 5 4 =
  Ok (replicate 20 zeroRGBA).
Proof. vm_compute. reflexivity. Qed.

(** ** Short buffers *)

Lemma store_no_err (u : list RGBA) (idx : Z) (v : RGBA) (e : error) :
  store u idx v <> Err e.
Proof. unfold store. destruct (_ && _); discriminate. Qed.

Lemma blockWrites_no_err (f : Z -> Z -> RGBA) (ox oy width : Z)
    (u : list RGBA) (e : error) :
  blockWrites f ox oy width u <> Err e.
Proof.
  unfold blockWrites, for_loop. apply for_from_no_err.
  intros j u' e'. apply for_from_no_err.
  intros i u'' e''. destruct (_ <? _); [apply store_no_err|discriminate].
Qed.

Lemma decodeBlockAt_no_err (p : Slice.t byte) (width offset j i : Z)
    (u : list RGBA) (e : error) :
  decodeBlockAt p width offset j i u <> Err e.
Proof.
  unfold decodeBlockAt, Slice.from, Slice.range.
  destruct (_ && _); simpl; [|discriminate].
  rewrite decompressDxt5Block_eq.
  destruct (16 <=? _); [apply blockWrites_no_err|discriminate].
Qed.

(** No path through [decompressDxt5] returns an error: the [binary.Read]
    calls are handed slices of exactly the size they read. *)
Lemma decompressDxt5_no_err (packed : Slice.t byte) (width height : Z)
    (e : error) :
  decompressDxt5 packed width height <> Err e.
Proof.
  unfold decompressDxt5, makeRGBA.
  destruct (_ <? 0); cbn [bind]; [discriminate|].
  apply bind_no_err; [|discriminate].
  intros e'. apply for_from_no_err. intros j [offset u'] e''.
  apply bind_no_err; [|discriminate].
  intros e3. apply for_from_no_err. intros i u'' e4.
  apply decodeBlockAt_no_err.
Qed.

(** C5 (code defect).  The claim asks that a buffer shorter than
    [ceil(width/4) * ceil(height/4) * 16] bytes makes the BC3 decode return
    an error.  The source has no length check and its [binary.Read] calls
    cannot fail.  On an empty buffer without spare capacity a 4x4 decode
    panics at [packed[:1]]; on an empty buffer with spare capacity (what
    [io.ReadAll] returns) the re-slices reach into the capacity and the
    decode succeeds with sixteen pixels read from the spare bytes; and no
    input makes [decompressDxt5] return an error. *)
Theorem decompressDxt5_short_buffer :
  decompressDxt5 (Slice.of_list []) 4 4 = Panic PanicSliceBounds /\
  decompressDxt5 (Slice.Make (replicate 512 x00) 0) 4 4 =
    Ok (replicate 16 zeroRGBA) /\
  forall packed width height e, decompressDxt5 packed width height <> Err e.
Proof.
  split; [vm_compute; reflexivity|].
  split; [vm_compute; reflexivity|].
  intros. apply decompressDxt5_no_err.
Qed.

(** ** Dispatch and the uncompressed path *)

(** [flags & (a|b) == a|b] holds exactly when both [a] and [b] are set. *)
Lemma land_lor_both (f a b : Z) :
  Z.land f (Z.lor a b) = Z.lor a b <->
  Z.land f a = a /\ Z.land f b = b.
Proof.
  split.
  - intros H. split; apply Z.bits_inj'; intros n Hn;
      apply (f_equal (fun z => Z.testbit z n)) in H;
      rewrite Z.land_spec, Z.lor_spec in H; rewrite Z.land_spec;
      destruct (Z.testbit f n), (Z.testbit a n), (Z.testbit b n);
      simpl in *; congruence.
  - intros [Ha Hb]. rewrite Z.land_lor_distr_r, Ha, Hb. reflexivity.
Qed.

Section DecoderProperties.

Variable readHeader : reader -> outcome (Header.t * reader).
Variable DecodeDXT1 : Slice.t byte -> Z -> Z -> outcome (list Z).
Variable pfAlphaPixels pfRGB : Z.
Variable readAllSpare : nat -> nat.

(** C6.  Once the header is read, [Decode] looks at the compression tag
    only: 0 goes to the uncompressed path, "DXT1" to the BC1 collaborator,
    "DXT5" to the BC3 decoder, and every other tag is an
    unsupported-compression error that carries the tag and no surface. *)
Theorem Decode_dispatch (r r' : reader) (h : Header.t) :
  readHeader r = Ok (h, r') ->
  let fourCC := PixelFormat.fourCC (Header.pixelFormat h) in
  let decode := Decode readHeader DecodeDXT1 pfAlphaPixels pfRGB readAllSpare in
  (fourCC = compressionTypeNone ->
     decode r = decodeUncompressedDDS pfAlphaPixels pfRGB h r') /\
  (fourCC = compressionTypeDXT1 ->
     decode r = decodeDXT1DDS DecodeDXT1 readAllSpare h r') /\
  (fourCC = compressionTypeDXT5 ->
     decode r = decodeDXT5DDS readAllSpare h r') /\
  (fourCC <> compressionTypeNone -> fourCC <> compressionTypeDXT1 ->
   fourCC <> compressionTypeDXT5 ->
     decode r = Err (ErrUnsupportedCompression fourCC)).
Proof.
  intros Hh fourCC decode. subst decode. unfold Decode. rewrite Hh.
  cbn [bind]. fold fourCC.
  repeat split.
  - intros ->. reflexivity.
  - intros ->. reflexivity.
  - intros ->. reflexivity.
  - intros H0 H1 H5.
    rewrite (proj2 (Z.eqb_neq _ _) H0), (proj2 (Z.eqb_neq _ _) H1),
      (proj2 (Z.eqb_neq _ _) H5).
    reflexivity.
Qed.

(** C7.  The uncompressed path produces a surface only when both the
    alpha-present and the RGB-present flag are set; when either is
    missing it returns the unsupported-pixel-format error (carrying the
    flags) and no surface. *)
Theorem decodeUncompressedDDS_flags (h : Header.t) (r : reader) :
  let flags := PixelFormat.flags (Header.pixelFormat h) in
  let both := Z.land flags pfAlphaPixels = pfAlphaPixels /\
              Z.land flags pfRGB = pfRGB in
  (forall m, decodeUncompressedDDS pfAlphaPixels pfRGB h r = Ok m -> both) /\
  (~ both ->
   decodeUncompressedDDS pfAlphaPixels pfRGB h r =
   Err (ErrUnsupportedPixelFormat flags)).
Proof.
  intros flags both. unfold decodeUncompressedDDS. fold flags.
  destruct (Z.eqb_spec (Z.land flags (Z.lor pfAlphaPixels pfRGB))
              (Z.lor pfAlphaPixels pfRGB)) as [Heq|Hne]; cbn [negb].
  - apply land_lor_both in Heq. split; [intros; exact Heq|].
    intros Hn. contradiction.
  - split; [discriminate|reflexivity].
Qed.

End DecoderProperties.

Lemma Decode_dispatch_witness :
  Decode sampleReadHeader sampleDecodeDXT1 1 64 (fun _ => 512%nat) [x03] =
  Err (ErrUnsupportedCompression (le_uint [x44; x58; x54; x33])).
Proof.
  refine (proj2 (proj2 (proj2
    (Decode_dispatch sampleReadHeader sampleDecodeDXT1 1 64 (fun _ => 512%nat)
       [x03] [] (sampleFormat (le_uint [x44; x58; x54; x33]) 4) eq_refl)))
    _ _ _); vm_compute; discriminate.
Defined.

Lemma decodeUncompressedDDS_flags_witness :
  decodeUncompressedDDS 1 64 (sampleFormat compressionTypeNone 64) [] =
  Err (ErrUnsupportedPixelFormat 64).
Proof.
  refine (proj2 (decodeUncompressedDDS_flags 1 64
                   (sampleFormat compressionTypeNone 64) []) _).
  intros [H _]. vm_compute in H. discriminate.
Defined.

(** ** The output buffer of the BC3 decoder *)

Lemma for_loop_inv {S} (I : S -> Prop) (body : Z -> S -> outcome S)
    (bound : Z) (s r : S) :
  I s ->
  (forall k s s', 0 <= k < bound -> I s -> body k s = Ok s' -> I s') ->
  for_loop bound body s = Ok r -> I r.
Proof.
  intros Hs Hbody. unfold for_loop. apply for_from_inv; [exact Hs|].
  intros k t t' Hk. apply Hbody. lia.
Qed.

Lemma store_Ok_inv (u r : list RGBA) (idx : Z) (v : RGBA) :
  store u idx v = Ok r ->
  0 <= idx < Z.of_nat (length u) /\ r = <[Z.to_nat idx := v]> u.
Proof.
  unfold store.
  destruct (Z.leb_spec 0 idx) as [H0|H0],
           (Z.ltb_spec idx (Z.of_nat (length u))) as [H1|H1];
    simpl; intros Heq; try discriminate.
  injection Heq as <-. split; [lia|reflexivity].
Qed.

(** An invariant of the pixel buffer that every guarded in-range write
    preserves holds after a block. *)
Lemma blockWrites_inv (I : list RGBA -> Prop) (f : Z -> Z -> RGBA)
    (ox oy width : Z) (u r : list RGBA) :
  I u ->
  (forall i j u v,
      0 <= i < blockSize -> 0 <= j < blockSize -> iadd ox i < width ->
      0 <= texelIndex ox oy width i j < Z.of_nat (length u) ->
      I u -> I (<[Z.to_nat (texelIndex ox oy width i j) := v]> u)) ->
  blockWrites f ox oy width u = Ok r -> I r.
Proof.
  intros Hu Hstep. unfold blockWrites.
  apply for_loop_inv; [exact Hu|].
  intros j u1 u1' Hj Hu1. apply for_loop_inv; [exact Hu1|].
  intros i u2 u2' Hi Hu2.
  destruct (Z.ltb_spec (iadd ox i) width) as [Hg|Hg].
  - intros Hst. apply store_Ok_inv in Hst as [Hidx ->].
    apply Hstep; assumption.
  - intros H. injection H as <-. exact Hu2.
Qed.

Lemma decodeBlockAt_inv (I : list RGBA -> Prop) (p : Slice.t byte)
    (width offset j i : Z) (u r : list RGBA) :
  I u ->
  (forall i' j' u v,
      0 <= i' < blockSize -> 0 <= j' < blockSize ->
      iadd (imul i blockSize) i' < width ->
      0 <= texelIndex (imul i blockSize) (imul j blockSize) width i' j'
        < Z.of_nat (length u) ->
      I u ->
      I (<[Z.to_nat (texelIndex (imul i blockSize) (imul j blockSize)
                       width i' j') := v]> u)) ->
  decodeBlockAt p width offset j i u = Ok r -> I r.
Proof.
  intros Hu Hstep. unfold decodeBlockAt. intros H.
  apply bind_Ok_inv in H as (q & _ & H).
  rewrite decompressDxt5Block_eq in H.
  destruct (16 <=? _); [|discriminate].
  revert H. apply blockWrites_inv; assumption.
Qed.

(** Any invariant of the pixel buffer that holds for the fresh buffer and
    is preserved by the guarded writes of the visited blocks holds for the
    result of a successful decode. *)
Lemma decompressDxt5_inv (I : list RGBA -> Prop) (packed : Slice.t byte)
    (width height : Z) (out : list RGBA) :
  I (replicate (Z.to_nat (imul width height)) zeroRGBA) ->
  (forall u v k, written width height k -> 0 <= k < Z.of_nat (length u) ->
                 I u -> I (<[Z.to_nat k := v]> u)) ->
  decompressDxt5 packed width height = Ok out ->
  0 <= imul width height /\ I out.
Proof.
  intros Hinit Hstep. unfold decompressDxt5, makeRGBA.
  destruct (Z.ltb_spec (imul width height) 0) as [Hneg|Hpos];
    cbn [bind]; [discriminate|].
  intros H. split; [exact Hpos|].
  apply bind_Ok_inv in H as ([offset u] & Hloop & H).
  injection H as <-. simpl snd.
  revert Hloop.
  apply (for_loop_inv (fun st : Z * list RGBA => I (snd st))); [exact Hinit|].
  intros by_ [off u0] [off' u0'] Hby Hu0. simpl snd in *.
  intros H. apply bind_Ok_inv in H as (u1 & Hrow & H).
  injection H as _ <-.
  revert Hrow. apply for_loop_inv; [exact Hu0|].
  intros bx u2 u2' Hbx Hu2. apply decodeBlockAt_inv; [exact Hu2|].
  intros i j u3 v Hi Hj Hg Hidx Hu3.
  apply Hstep; [|exact Hidx|exact Hu3].
  exists bx, by_, i, j. repeat split; first [lia|exact Hg].
Qed.

(** The product of two 32-bit dimensions that [make] accepts is exact. *)
Lemma imul_exact (width height : Z) :
  0 <= width < 2 ^ 32 -> 0 <= height < 2 ^ 32 ->
  0 <= imul width height -> imul width height = width * height.
Proof.
  intros Hw Hh. unfold imul, int64.
  intros Hpos.
  assert (0 <= width * height < 2 ^ 64).
  { split; [apply Z.mul_nonneg_nonneg; lia|].
    apply Z.le_lt_trans with ((2 ^ 32 - 1) * (2 ^ 32 - 1)); [|reflexivity].
    apply Z.mul_le_mono_nonneg; lia. }
  destruct (Z_lt_le_dec (width * height) (2 ^ 63)) as [Hs|Hl].
  - rewrite Z.mod_small by lia. lia.
  - exfalso.
    assert (Hm : (width * height + 2 ^ 63) mod 2 ^ 64 = width * height - 2 ^ 63).
    { replace (width * height + 2 ^ 63)
        with (width * height - 2 ^ 63 + 1 * 2 ^ 64) by lia.
      rewrite Z_mod_plus_full. apply Z.mod_small. lia. }
    rewrite Hm in Hpos. lia.
Qed.

(** C10.  When [decompressDxt5] succeeds, the slice it returns has
    [width*height] elements ([int] product; exact for dimensions that
    come from the 32-bit header fields), and every position that no block
    writes still holds the zero pixel that [make] put there. *)
Theorem decompressDxt5_length_unwritten (packed : Slice.t byte)
    (width height : Z) (out : list RGBA) :
  decompressDxt5 packed width height = Ok out ->
  Z.of_nat (length out) = imul width height /\
  (0 <= width < 2 ^ 32 -> 0 <= height < 2 ^ 32 ->
   Z.of_nat (length out) = width * height) /\
  (forall k, (k < length out)%nat -> ~ written width height (Z.of_nat k) ->
             out !! k = Some zeroRGBA).
Proof.
  intros Hrun.
  pose (n := Z.to_nat (imul width height)).
  apply (decompressDxt5_inv (fun u =>
           length u = n /\
           forall k, (k < n)%nat -> ~ written width height (Z.of_nat k) ->
                     u !! k = Some zeroRGBA)) in Hrun.
  - destruct Hrun as (Hpos & Hlen & Hzero).
    assert (Hl : Z.of_nat (length out) = imul width height)
      by (rewrite Hlen; subst n; lia).
    split; [exact Hl|]. split.
    + intros Hw Hh. rewrite Hl. apply imul_exact; assumption.
    + intros k Hk. apply Hzero. lia.
  - split; [apply length_replicate|].
    intros k Hk _. apply lookup_replicate_2. exact Hk.
  - intros u v k Hw Hk [Hlen Hzero]. split.
    + rewrite length_insert. exact Hlen.
    + intros k' Hk' Hnw. rewrite list_lookup_insert_ne.
      * apply Hzero; assumption.
      * intros <-. apply Hnw. rewrite Z2Nat.id by lia. exact Hw.
Qed.

Lemma decompressDxt5_length_unwritten_witness :
  decompressDxt5 (Slice.of_list (replicate 32 xff)) 5 4 =
    Ok (replicate 20 (mkRGBA 84 84 84 255)) /\
  Z.of_nat (length (replicate 20 (mkRGBA 84 84 84 255))) = imul 5 4.
Proof.
  assert (H : decompressDxt5 (Slice.of_list (replicate 32 xff)) 5 4 =
              Ok (replicate 20 (mkRGBA 84 84 84 255)))
    by (vm_compute; reflexivity).
  split; [exact H|].
  exact (proj1 (decompressDxt5_length_unwritten _ _ _ _ H)).
Defined.

(** ** Determinism *)

Lemma blockCount_eq (n : Z) :
  0 <= n < 2 ^ 32 -> idiv (iadd n 3) blockSize = (n + 3) / 4.
Proof.
  intros Hn. unfold idiv, iadd, blockSize.
  rewrite (int64_small (n + 3)) by lia.
  rewrite Z.quot_div_nonneg by lia.
  apply int64_small.
  pose proof (Z.div_pos (n + 3) 4 ltac:(lia) ltac:(lia)).
  pose proof (Z.div_le_upper_bound (n + 3) 4 (2 ^ 32) ltac:(lia) ltac:(lia)).
  lia.
Qed.

Lemma visible_length {A} (p : Slice.t A) :
  Slice.wf p -> length (Slice.visible p) = Slice.len p.
Proof.
  intros [Hwf _]. unfold Slice.visible, Slice.cap in *.
  rewrite length_take. lia.
Qed.

(** The BC3 decoder is a function of the bytes of the buffer alone: two
    buffers with the same bytes, whatever their capacities and whatever
    lies in the spare capacity, give the same outcome, provided the buffer
    holds the [ceil(width/4) * ceil(height/4)] blocks of the declared
    dimensions. *)
Lemma decompressDxt5_visible (p1 p2 : Slice.t byte) (width height : Z) :
  Slice.wf p1 -> Slice.wf p2 ->
  Slice.visible p1 = Slice.visible p2 ->
  0 <= width < 2 ^ 32 -> 0 <= height < 2 ^ 32 ->
  (width + 3) / 4 * ((height + 3) / 4) * 16 <= Z.of_nat (Slice.len p1) ->
  decompressDxt5 p1 width height = decompressDxt5 p2 width height.
Proof.
  intros Hwf1 Hwf2 Hvis Hw Hh Hvalid.
  assert (Hlen : Slice.len p2 = Slice.len p1).
  { rewrite <- (visible_length p1), <- (visible_length p2) by assumption.
    rewrite Hvis. reflexivity. }
  assert (Hcap : Z.of_nat (Slice.len p1) < 2 ^ 63).
  { destruct Hwf1 as [H1 H2]. lia. }
  unfold decompressDxt5.
  rewrite !blockCount_eq by assumption.
  set (X := (width + 3) / 4) in *. set (Y := (height + 3) / 4) in *.
  assert (HX : 0 <= X) by (apply Z.div_pos; lia).
  assert (HY : 0 <= Y) by (apply Z.div_pos; lia).
  destruct (makeRGBA (imul width height)) as [u0| |]; cbn [bind];
    try reflexivity.
  f_equal. unfold for_loop at 1 3.
  apply (for_from_ext_inv
           (fun j (st : Z * list RGBA) => fst st = 16 * X * j)).
  - simpl. lia.
  - intros j [offset u] Hj Hoff. simpl in Hoff. subst offset.
    f_equal. unfold for_loop.
    apply (for_from_ext_inv (fun _ _ => True)); [exact I| |trivial].
    intros i u' Hi _.
    assert (Hoff : iadd (16 * X * j) (imul i 16) = 16 * X * j + 16 * i).
    { unfold iadd, imul. rewrite (int64_small (i * 16)) by nia.
      rewrite int64_small by nia. lia. }
    rewrite !decodeBlockAt_eq by (try assumption; rewrite Hoff; nia).
    rewrite Hvis. reflexivity.
  - intros j [offset u] [offset' u'] Hj Hoff. simpl in Hoff. subst offset.
    intros H. apply bind_Ok_inv in H as (u1 & _ & H).
    injection H as <- _. simpl.
    unfold iadd, imul. rewrite (int64_small (X * 16)) by nia.
    rewrite int64_small by nia. lia.
Qed.

(** Without that proviso the outcome depends on what the spare capacity
    happens to hold. *)
Example decompressDxt5_short_reads_spare :
  Slice.visible (Slice.Make (replicate 16 x00) 0) =
  Slice.visible (Slice.Make (replicate 16 xff) 0) /\
  decompressDxt5 (Slice.Make (replicate 16 x00) 0) 4 4 =
    Ok (replicate 16 zeroRGBA) /\
  decompressDxt5 (Slice.Make (replicate 16 xff) 0) 4 4 =
    Ok (replicate 16 (mkRGBA 84 84 84 255)).
Proof. repeat split; vm_compute; reflexivity. Qed.

Lemma ReadAll_visible (spare : nat -> nat) (r : reader) :
  Slice.visible (ReadAll spare r) = r.
Proof. unfold ReadAll, Slice.visible. simpl. apply take_app_length. Qed.

Lemma ReadAll_wf (spare : nat -> nat) (r : reader) :
  Z.of_nat (length r + spare (length r)) < 2 ^ 63 ->
  Slice.wf (ReadAll spare r).
Proof.
  intros H. unfold ReadAll, Slice.wf, Slice.cap. simpl.
  rewrite length_app, length_replicate. split; [lia|exact H].
Qed.

Section Determinism.

Variable readHeader : reader -> outcome (Header.t * reader).
Variable DecodeDXT1 : Slice.t byte -> Z -> Z -> outcome (list Z).
Variable pfAlphaPixels pfRGB : Z.

(** The run-time may give the buffer of [io.ReadAll] a different capacity
    on every run. *)
Variable spare1 spare2 : nat -> nat.

(** C9.  Two runs of [Decode] over the same stream return the same
    surface (the same dimensions and the same pixel bytes) or the same
    failure, whatever capacity the run-time gives to the buffer that holds
    the stream.  The stream is valid: its header has 32-bit fields and,
    for BC3 data, the blocks of the declared dimensions are present; the
    BC1 collaborator is assumed to depend on the bytes it is given only. *)
Theorem Decode_deterministic (r r' : reader) (h : Header.t) :
  (forall p1 p2 w h, Slice.visible p1 = Slice.visible p2 ->
                     DecodeDXT1 p1 w h = DecodeDXT1 p2 w h) ->
  readHeader r = Ok (h, r') ->
  Header.wf h ->
  Z.of_nat (length r' + spare1 (length r')) < 2 ^ 63 ->
  Z.of_nat (length r' + spare2 (length r')) < 2 ^ 63 ->
  (PixelFormat.fourCC (Header.pixelFormat h) = compressionTypeDXT5 ->
   (Header.width h + 3) / 4 * ((Header.height h + 3) / 4) * 16
   <= Z.of_nat (length r')) ->
  Decode readHeader DecodeDXT1 pfAlphaPixels pfRGB spare1 r =
  Decode readHeader DecodeDXT1 pfAlphaPixels pfRGB spare2 r.
Proof.
  intros Hbc1 Hh (Hheight & Hwidth & _) Hs1 Hs2 Hvalid.
  unfold Decode. rewrite Hh. cbn [bind].
  destruct (_ =? compressionTypeNone); [reflexivity|].
  destruct (_ =? compressionTypeDXT1).
  - unfold decodeDXT1DDS.
    rewrite (Hbc1 (ReadAll spare1 r') (ReadAll spare2 r'))
      by (rewrite !ReadAll_visible; reflexivity).
    reflexivity.
  - destruct (Z.eqb_spec (PixelFormat.fourCC (Header.pixelFormat h))
                compressionTypeDXT5) as [H5|H5]; [|reflexivity].
    unfold decodeDXT5DDS.
    rewrite (decompressDxt5_visible (ReadAll spare1 r') (ReadAll spare2 r')).
    + reflexivity.
    + apply ReadAll_wf. exact Hs1.
    + apply ReadAll_wf. exact Hs2.
    + rewrite !ReadAll_visible. reflexivity.
    + exact Hwidth.
    + exact Hheight.
    + simpl. apply Hvalid. exact H5.
Qed.

End Determinism.

(** A 4x4 BC3 stream decodes to the same sixteen pixels whatever the
    capacity of the buffer is. *)
Example Decode_sample_DXT5 :
  Pix_of (Decode sampleReadHeader sampleDecodeDXT1 1 64 (fun _ => 512%nat)
            (x05 :: replicate 16 xff)) =
  Some (concat (replicate 16 [84; 84; 84; 255])).
Proof. vm_compute. reflexivity. Qed.

Lemma Decode_deterministic_witness :
  Decode sampleReadHeader sampleDecodeDXT1 1 64 (fun _ => 0%nat)
    (x05 :: replicate 16 xff) =
  Decode sampleReadHeader sampleDecodeDXT1 1 64 (fun _ => 512%nat)
    (x05 :: replicate 16 xff).
Proof.
  apply (Decode_deterministic sampleReadHeader sampleDecodeDXT1 1 64
           (fun _ => 0%nat) (fun _ => 512%nat)
           (x05 :: replicate 16 xff) (replicate 16 xff)
           (sampleFormat compressionTypeDXT5 4)).
  - reflexivity.
  - reflexivity.
  - unfold Header.wf, PixelFormat.wf, PixelFormat.is_u32; simpl.
    repeat split; try lia; vm_compute; first [reflexivity | discriminate].
  - vm_compute. reflexivity.
  - vm_compute. reflexivity.
  - intros _. vm_compute. discriminate.
Defined.

(** ** The accessor of the uncompressed surface *)

Lemma read_within_row (w bc : Z) :
  1 <= w -> 0 <= bc ->
  bc / 8 * (w - 1) + (bc + 7) / 8 <= (w * bc + 7) / 8.
Proof.
  intros Hw Hbc.
  pose proof (Z.div_mod bc 8 ltac:(lia)) as Hd.
  pose proof (Z.mod_pos_bound bc 8 ltac:(lia)) as Hm.
  set (q := bc / 8) in *. set (t := bc mod 8) in *.
  assert (H1 : (bc + 7) / 8 = q + (t + 7) / 8).
  { replace (bc + 7) with (t + 7 + q * 8) by lia. rewrite Z.div_add by lia. lia. }
  assert (H2 : (w * bc + 7) / 8 = q * w + (t * w + 7) / 8).
  { replace (w * bc + 7) with (t * w + 7 + q * w * 8) by lia.
    rewrite Z.div_add by lia. lia. }
  rewrite H1, H2.
  assert ((t + 7) / 8 <= (t * w + 7) / 8) by (apply Z.div_le_mono; nia).
  lia.
Qed.

Lemma lowestSetBit_pos_spec (p : positive) :
  0 <= lowestSetBit_pos p /\
  Z.testbit (Zpos p) (lowestSetBit_pos p) = true /\
  forall k, 0 <= k < lowestSetBit_pos p -> Z.testbit (Zpos p) k = false.
Proof.
  induction p as [p IH|p IH|]; simpl lowestSetBit_pos.
  - split; [lia|]. split; [reflexivity|]. intros k Hk. lia.
  - destruct IH as (H0 & H1 & H2). split; [lia|]. split.
    + replace (1 + lowestSetBit_pos p) with (Z.succ (lowestSetBit_pos p)) by lia.
      change (Z.pos p~0) with (2 * Z.pos p).
      rewrite Z.testbit_even_succ by lia. exact H1.
    + intros k Hk. change (Z.pos p~0) with (2 * Z.pos p).
      destruct (Z.eq_dec k 0) as [->|Hne].
      * apply Z.testbit_even_0.
      * replace k with (Z.succ (k - 1)) by lia.
        rewrite Z.testbit_even_succ by lia. apply H2. lia.
  - split; [lia|]. split; [reflexivity|]. intros k Hk. lia.
Qed.

(** [lowestSetBit] is the index of the lowest set bit of a non-zero mask. *)
Lemma lowestSetBit_spec (mask : Z) :
  0 < mask ->
  Z.testbit mask (lowestSetBit mask) = true /\
  forall k, 0 <= k < lowestSetBit mask -> Z.testbit mask k = false.
Proof.
  destruct mask as [|p|p]; try lia. intros _.
  apply lowestSetBit_pos_spec.
Qed.

(** Where the 32-bit arithmetic of the header does not wrap, the accessor
    is as C8 describes it.  For every in-bounds pixel of an uncompressed
    surface of at most 32 bits per pixel whose row size
    [width*rgbBitCount + 7] and buffer size [pitch*height] fit in 32 bits,
    the pitch of the surface is [ceil(width*rgbBitCount/8)] and its stride
    [rgbBitCount/8], the bytes of the pixel lie within the pixel data, and
    the accessor returns the channels [(d & mask) >> bitOffset(mask)],
    truncated to 8 bits, of the little-endian integer [d] read at
    [y*pitch + x*stride]. *)
Lemma At_reads_pixel (pfAlphaPixels pfRGB : Z) (hdr : Header.t) (r : reader)
    (m : img) (x y : Z) :
  let bc := PixelFormat.rgbBitCount (Header.pixelFormat hdr) in
  Header.wf hdr ->
  bc <= 32 ->
  Header.width hdr * bc + 7 < 2 ^ 32 ->
  (Header.width hdr * bc + 7) / 8 * Header.height hdr < 2 ^ 32 ->
  decodeUncompressedDDS pfAlphaPixels pfRGB hdr r = Ok (ImageImg m) ->
  0 <= x < Header.width hdr -> 0 <= y < Header.height hdr ->
  (pitch m = (Header.width hdr * bc + 7) / 8 /\
   8 * (pitch m - 1) < Header.width hdr * bc <= 8 * pitch m /\
   stride m = bc / 8) /\
  length (pixelBytes hdr r x y) = Z.to_nat ((bc + 7) / 8) /\
  At m x y = Ok (AtSpec hdr r x y).
Proof.
  unfold AtSpec, pixelBytes.
  set (pf := Header.pixelFormat hdr). set (bc := PixelFormat.rgbBitCount pf).
  set (pitch0 := (Header.width hdr * bc + 7) / 8). set (stride0 := bc / 8).
  set (nbytes := Z.to_nat ((bc + 7) / 8)).
  set (pixel := take nbytes (drop (Z.to_nat (y * pitch0 + x * stride0)) r)).
  intros (Hheight & Hwidth & Hpf) _ Hrow Hsize Hdec Hx Hy.
  assert (Hbc : 0 <= bc < 2 ^ 32) by (destruct Hpf as (_ & _ & Hb & _); exact Hb).
  unfold PixelFormat.is_u32 in *.
  assert (Hwbc : 0 <= Header.width hdr * bc) by nia.
  assert (Hp0 : 0 <= pitch0) by (apply Z.div_pos; lia).
  assert (Hceil : 8 * (pitch0 - 1) < Header.width hdr * bc <= 8 * pitch0).
  { pose proof (Z.div_mod (Header.width hdr * bc + 7) 8 ltac:(lia)).
    pose proof (Z.mod_pos_bound (Header.width hdr * bc + 7) 8 ltac:(lia)).
    subst pitch0. lia. }
  pose proof (read_within_row (Header.width hdr) bc ltac:(lia) ltac:(lia)) as Hfit.
  fold pitch0 stride0 in Hfit.
  assert (Hs0 : 0 <= stride0) by (apply Z.div_pos; lia).
  assert (Hn0 : 0 <= (bc + 7) / 8) by (apply Z.div_pos; lia).
  (* the decode *)
  unfold decodeUncompressedDDS in Hdec. fold pf bc in Hdec.
  destruct (negb _); [discriminate|].
  rewrite (u32_small (Header.width hdr * bc)) in Hdec by lia.
  rewrite (u32_small (Header.width hdr * bc + 7)) in Hdec by lia.
  fold pitch0 stride0 in Hdec.
  rewrite (u32_small (pitch0 * Header.height hdr)) in Hdec by nia.
  unfold ReadFull in Hdec.
  destruct (Nat.leb_spec (Z.to_nat (pitch0 * Header.height hdr)) (length r))
    as [Hk|Hk]; [|destruct (_ =? _)%nat; discriminate].
  injection Hdec as <-.
  set (k := Z.to_nat (pitch0 * Header.height hdr)) in *.
  (* the position of the pixel *)
  assert (Harr : 0 <= y * pitch0 + x * stride0 /\
                 y * pitch0 + x * stride0 + (bc + 7) / 8
                 <= pitch0 * Header.height hdr) by nia.
  split; [cbn [pitch stride]; auto|]. split.
  { subst pixel nbytes. rewrite length_take, length_drop. lia. }
  unfold At. cbn [h buf rBit gBit bBit aBit stride pitch].
  fold pf bc.
  assert (Hpsn : iadd (imul pitch0 y) (imul stride0 x)
                 = y * pitch0 + x * stride0).
  { unfold iadd, imul.
    rewrite (int64_small (pitch0 * y)), (int64_small (stride0 * x)) by nia.
    rewrite int64_small by nia. lia. }
  rewrite Hpsn.
  rewrite Slice_from_eq; cycle 1.
  { simpl. rewrite length_take. lia. }
  { unfold Slice.wf, Slice.cap. simpl. rewrite length_take. lia. }
  cbn [bind]. unfold readBits, Slice.visible. cbn [Slice.len Slice.arr].
  unfold Slice.of_list. cbn [Slice.len Slice.arr].
  fold nbytes.
  replace (nbytes <=? _)%nat with true
    by (symmetry; apply Nat.leb_le; rewrite length_take; lia).
  cbn [bind].
  rewrite take_take.
  replace (nbytes `min` _)%nat with nbytes by (rewrite length_take; lia).
  rewrite take_drop_take by lia.
  reflexivity.
Qed.

Lemma At_reads_pixel_witness :
  At (mkImg smallHeader (Slice.of_list eightBytes) 0 8 16 24 4 8) 1 0 =
  Ok (NRGBA 5 6 7 8).
Proof.
  refine (proj2 (proj2
    (At_reads_pixel 1 64 smallHeader eightBytes
       (mkImg smallHeader (Slice.of_list eightBytes) 0 8 16 24 4 8) 1 0
       _ _ _ _ _ _ _))).
  - unfold Header.wf, PixelFormat.wf, PixelFormat.is_u32; simpl.
    repeat split; try lia; vm_compute; first [reflexivity | discriminate].
  - simpl. lia.
  - vm_compute. reflexivity.
  - vm_compute. reflexivity.
  - vm_compute. reflexivity.
  - simpl. lia.
  - simpl. lia.
Defined.

(** C8 (code defect).  The claim asks that every in-bounds pixel is read
    at byte offset [y*pitch + x*stride] with
    [pitch = ceil(width*rgbBitCount/8)].  The source computes
    [(h.width*h.pixelFormat.rgbBitCount + 7) / 8] and [pitch*h.height] in
    the unsigned 32-bit type of the header fields, without a check.  The
    well-formed header [wideHeader] (width [2^29+1], height 2, 32 bits per
    pixel) is accepted with eight bytes of pixel data; the pitch of the
    surface is 4, not [2^31+4]; the in-bounds pixel (0,1) is read at byte
    offset 4 and is not the colour the claim describes (which lies at
    offset [2^31+4], outside the data); and the in-bounds pixels (2,0)
    and (3,0) cannot be read at all: [img.At] panics, for (3,0) in the
    re-slice [buf[12:]] of the 8-byte buffer. *)
Theorem At_pitch_overflow :
  Header.wf wideHeader /\
  0 <= 3 < Header.width wideHeader /\ 0 <= 1 < Header.height wideHeader /\
  exists m,
    decodeUncompressedDDS 1 64 wideHeader eightBytes = Ok (ImageImg m) /\
    pitch m = 4 /\
    (Header.width wideHeader * 32 + 7) / 8 = 2 ^ 31 + 4 /\
    Slice.len (buf m) = 8%nat /\
    At m 0 1 = Ok (NRGBA 5 6 7 8) /\
    AtSpec wideHeader eightBytes 0 1 = NRGBA 0 0 0 0 /\
    At m 0 1 <> Ok (AtSpec wideHeader eightBytes 0 1) /\
    At m 2 0 = Panic (PanicIndex 0 0) /\
    At m 3 0 = Panic PanicSliceBounds.
Proof.
  assert (Hspec : AtSpec wideHeader eightBytes 0 1 = NRGBA 0 0 0 0).
  { unfold AtSpec, pixelBytes.
    change (PixelFormat.rgbBitCount (Header.pixelFormat wideHeader)) with 32.
    change (Header.width wideHeader) with (2 ^ 29 + 1).
    change ((2 ^ 29 + 1) * 32 + 7) with 17179869223.
    change (17179869223 / 8) with 2147483652.
    rewrite drop_ge by (simpl length; lia).
    reflexivity. }
  split.
  { unfold Header.wf, PixelFormat.wf, PixelFormat.is_u32; simpl.
    repeat split; try lia; vm_compute; first [reflexivity | discriminate]. }
  split; [simpl; lia|]. split; [simpl; lia|].
  eexists. split; [vm_compute; reflexivity|].
  split; [reflexivity|].
  split; [vm_compute; reflexivity|].
  split; [reflexivity|].
  split; [vm_compute; reflexivity|].
  split; [exact Hspec|].
  split; [rewrite Hspec; vm_compute; discriminate|].
  split; vm_compute; reflexivity.
Qed.

(** ** What a successful BC3 decode contains *)

(** A loop whose body succeeds and steps an indexed invariant succeeds. *)
Lemma for_from_ok {S} (I : Z -> S -> Prop) (body : Z -> S -> outcome S) :
  forall n i s,
    I i s ->
    (forall k s, i <= k < i + Z.of_nat n -> I k s ->
                 exists s', body k s = Ok s' /\ I (k + 1) s') ->
    exists r, for_from n i body s = Ok r /\ I (i + Z.of_nat n) r.
Proof.
  induction n as [|n IH]; intros i s Hs Hstep.
  - exists s. split; [reflexivity|]. replace (i + Z.of_nat 0) with i by lia.
    exact Hs.
  - destruct (Hstep i s ltac:(lia) Hs) as (s' & Hb & Hs').
    destruct (IH (i + 1) s' Hs') as (r & Hr & HI).
    { intros k t Hk. apply Hstep. lia. }
    exists r. split.
    + simpl. rewrite Hb. exact Hr.
    + replace (i + Z.of_nat (Datatypes.S n)) with (i + 1 + Z.of_nat n) by lia.
      exact HI.
Qed.

Lemma for_loop_ok {S} (I : Z -> S -> Prop) (body : Z -> S -> outcome S)
    (bound : Z) (s : S) :
  0 <= bound -> I 0 s ->
  (forall k s, 0 <= k < bound -> I k s ->
               exists s', body k s = Ok s' /\ I (k + 1) s') ->
  exists r, for_loop bound body s = Ok r /\ I bound r.
Proof.
  intros Hb Hs Hstep. unfold for_loop.
  destruct (for_from_ok I body (Z.to_nat bound) 0 s Hs) as (r & Hr & HI).
  { intros k t Hk. apply Hstep. lia. }
  exists r. split; [exact Hr|].
  replace (0 + Z.of_nat (Z.to_nat bound)) with bound in HI by lia. exact HI.
Qed.

(** A loop that succeeds [m] times and then panics, panics. *)
Lemma for_from_panic_at {S} (I : Z -> S -> Prop) (body : Z -> S -> outcome S)
    (p : panic) :
  forall m n i s,
    (m < n)%nat -> I i s ->
    (forall k s, i <= k < i + Z.of_nat m -> I k s ->
                 exists s', body k s = Ok s' /\ I (k + 1) s') ->
    (forall s, I (i + Z.of_nat m) s -> body (i + Z.of_nat m) s = Panic p) ->
    for_from n i body s = Panic p.
Proof.
  induction m as [|m IH]; intros n i s Hmn Hs Hstep Hpanic.
  - destruct n as [|n]; [lia|]. simpl.
    replace (i + Z.of_nat 0) with i in Hpanic by lia.
    rewrite (Hpanic s Hs). reflexivity.
  - destruct n as [|n]; [lia|]. simpl.
    destruct (Hstep i s ltac:(lia) Hs) as (s' & Hb & Hs').
    rewrite Hb. cbn [bind]. apply (IH n (i + 1) s'); [lia|exact Hs'| |].
    + intros k t Hk. apply Hstep. lia.
    + intros t Ht. replace (i + 1 + Z.of_nat m) with (i + Z.of_nat (Datatypes.S m)) in * by lia.
      apply Hpanic. exact Ht.
Qed.

Lemma index_inj (w x y x' y' : Z) :
  0 <= x < w -> 0 <= x' < w -> 0 <= y -> 0 <= y' ->
  y * w + x = y' * w + x' -> x = x' /\ y = y'.
Proof.
  intros Hx Hx' Hy Hy' Heq.
  assert (y = y') by nia. subst y'. lia.
Qed.

Section BlockRows.

Variable packed : Slice.t byte.
Variable width height : Z.
Hypothesis Hwf : Slice.wf packed.
Hypothesis Hwidth : 0 <= width < 2 ^ 32.
Hypothesis Hheight : 0 <= height < 2 ^ 32.
Hypothesis Hsize : width * height < 2 ^ 63.

Local Abbreviation X := ((width + 3) / 4).
Local Abbreviation pix := (expectedPixel packed width).
Local Abbreviation holds' := (holds width height pix).

Lemma holds_weaken (P Q : Z -> Z -> Prop) (u : list RGBA) :
  (forall x y, 0 <= x < width -> 0 <= y < height -> Q x y -> P x y) ->
  holds' P u -> holds' Q u.
Proof.
  intros HQP [Hlen Hpix]. split; [exact Hlen|].
  intros x y Hx Hy HQ. apply Hpix; auto.
Qed.

Lemma holds_store (P : Z -> Z -> Prop) (u : list RGBA) (x y : Z) :
  holds' P u -> 0 <= x < width -> 0 <= y < height ->
  holds' (fun x' y' => P x' y' \/ (x' = x /\ y' = y))
         (<[Z.to_nat (y * width + x) := pix x y]> u).
Proof.
  intros [Hlen Hpix] Hx Hy. split; [rewrite length_insert; exact Hlen|].
  intros x' y' Hx' Hy' HP.
  destruct (Z.eq_dec (y' * width + x') (y * width + x)) as [Heq|Hne].
  - apply index_inj in Heq as [-> ->]; try lia.
    apply list_lookup_insert_eq. nia.
  - rewrite list_lookup_insert_ne by nia.
    destruct HP as [HP|[-> ->]]; [|lia]. apply Hpix; assumption.
Qed.

(** The index expression of an in-bounds texel does not wrap. *)
Lemma texelIndex_exact (ox oy i j : Z) :
  0 <= ox -> 0 <= oy -> 0 <= i -> 0 <= j ->
  ox + i < width -> oy + j < height ->
  texelIndex ox oy width i j = (oy + j) * width + (ox + i).
Proof.
  intros. unfold texelIndex, iadd, imul.
  rewrite (int64_small (oy + j)) by lia.
  rewrite (int64_small (ox + i)) by lia.
  rewrite (int64_small ((oy + j) * width)) by nia.
  apply int64_small. nia.
Qed.

(** One row of texels of a block that lies within the image height. *)
Lemma rowWrites_ok (f : Z -> Z -> RGBA) (ox oy j : Z) (P : Z -> Z -> Prop)
    (u : list RGBA) :
  0 <= ox < 2 ^ 40 -> 0 <= oy -> 0 <= j -> oy + j < height ->
  (forall i, 0 <= i < 4 -> ox + i < width -> f i j = pix (ox + i) (oy + j)) ->
  holds' P u ->
  exists u',
    for_loop blockSize (fun i unpacked =>
      if iadd ox i <? width
      then store unpacked (texelIndex ox oy width i j) (f i j)
      else Ok unpacked) u = Ok u' /\
    holds' (fun x y => P x y \/ (y = oy + j /\ ox <= x < ox + 4)) u'.
Proof.
  intros Hox Hoy Hj Hrow Hf Hu.
  apply (for_loop_ok (fun i u =>
           holds' (fun x y => P x y \/ (y = oy + j /\ ox <= x < ox + i)) u)).
  - unfold blockSize. lia.
  - revert Hu. apply holds_weaken. intros x y _ _ [HP|HP]; [exact HP|lia].
  - unfold blockSize. intros i v Hi Hv.
    unfold iadd. rewrite (int64_small (ox + i)) by lia.
    destruct (Z.ltb_spec (ox + i) width) as [Hg|Hg].
    + rewrite texelIndex_exact by lia. rewrite Hf by lia.
      unfold store.
      pose proof Hv as [Hlen _].
      replace (0 <=? _) with true by (symmetry; apply Z.leb_le; nia).
      replace (_ <? Z.of_nat (length v)) with true
        by (symmetry; apply Z.ltb_lt; nia).
      eexists. split; [reflexivity|].
      eapply holds_weaken; [|apply (holds_store _ v (ox + i) (oy + j) Hv); lia].
      simpl. intros x y _ _ [HP|HP]; [left; left; exact HP|].
      destruct (Z.eq_dec x (ox + i)); [right; lia|left; right; lia].
    + exists v. split; [reflexivity|].
      revert Hv. apply holds_weaken.
      intros x y Hx _ [HP|HP]; [left; exact HP|right; lia].
Qed.

(** A block that lies within the image height. *)
Lemma blockWrites_ok (f : Z -> Z -> RGBA) (ox oy : Z) (P : Z -> Z -> Prop)
    (u : list RGBA) :
  0 <= ox < 2 ^ 40 -> 0 <= oy -> oy + 4 <= height ->
  (forall i j, 0 <= i < 4 -> 0 <= j < 4 -> ox + i < width ->
               f i j = pix (ox + i) (oy + j)) ->
  holds' P u ->
  exists u',
    blockWrites f ox oy width u = Ok u' /\
    holds' (fun x y => P x y \/ (ox <= x < ox + 4 /\ oy <= y < oy + 4)) u'.
Proof.
  intros Hox Hoy Hfit Hf Hu. unfold blockWrites.
  apply (for_loop_ok (fun j u =>
           holds' (fun x y => P x y \/ (ox <= x < ox + 4 /\ oy <= y < oy + j)) u)).
  - unfold blockSize. lia.
  - revert Hu. apply holds_weaken. intros x y _ _ [HP|HP]; [exact HP|lia].
  - unfold blockSize at 1. intros j v Hj Hv.
    destruct (rowWrites_ok f ox oy j _ v Hox Hoy ltac:(lia) ltac:(lia)
                ltac:(intros; apply Hf; lia) Hv) as (v' & Hrun & Hv').
    exists v'. split; [exact Hrun|].
    revert Hv'. apply holds_weaken.
    intros x y _ _ [HP|HP]; [left; left; exact HP|].
    destruct (Z.eq_dec y (oy + j)); [right; lia|left; right; lia].
Qed.

(** The block at [(bx, by_)] holds the texels that [expectedPixel] names. *)
Lemma block_pixels (bx by_ i j : Z) :
  0 <= bx -> 0 <= by_ -> 0 <= i < 4 -> 0 <= j < 4 ->
  texel (blockOfBytes (drop (Z.to_nat (16 * X * by_ + 16 * bx))
                            (Slice.visible packed))) i j =
  pix (4 * bx + i) (4 * by_ + j).
Proof.
  intros Hbx Hby Hi Hj. unfold expectedPixel.
  replace ((4 * by_ + j) / 4) with by_
    by (apply (Z.div_unique _ 4 by_ j); lia).
  replace ((4 * bx + i) / 4) with bx
    by (apply (Z.div_unique _ 4 bx i); lia).
  replace ((4 * bx + i) mod 4) with i
    by (apply (Z.mod_unique _ 4 bx i); lia).
  replace ((4 * by_ + j) mod 4) with j
    by (apply (Z.mod_unique _ 4 by_ j); lia).
  do 3 f_equal. lia.
Qed.

Lemma X_bounds : 0 <= X /\ width <= 4 * X /\ 4 * X <= width + 3.
Proof.
  pose proof (Z.div_mod (width + 3) 4 ltac:(lia)).
  pose proof (Z.mod_pos_bound (width + 3) 4 ltac:(lia)). lia.
Qed.

(** One block row that lies within the image height and within the
    buffer. *)
Lemma rowBody_ok (by_ : Z) (u : list RGBA) :
  0 <= by_ -> 4 * by_ + 4 <= height ->
  16 * X * (by_ + 1) <= Z.of_nat (Slice.len packed) ->
  holds' (fun x y => y < 4 * by_) u ->
  exists u',
    rowBody packed width X by_ (16 * X * by_, u) = Ok (16 * X * (by_ + 1), u') /\
    holds' (fun x y => y < 4 * (by_ + 1)) u'.
Proof.
  intros Hby Hfit Hbuf Hu. unfold rowBody.
  pose proof X_bounds as (HX0 & HX1 & HX2).
  assert (Hcap : Z.of_nat (Slice.len packed) < 2 ^ 63).
  { destruct Hwf as [H1 H2]. lia. }
  destruct (for_loop_ok (fun bx v =>
              holds' (fun x y => y < 4 * by_ \/
                                 (x < 4 * bx /\ 4 * by_ <= y < 4 * by_ + 4)) v)
              (decodeBlockAt packed width (16 * X * by_) by_) X u HX0)
    as (u' & Hrun & Hu').
  - revert Hu. apply holds_weaken. intros x y Hx _ [HP|HP]; [exact HP|lia].
  - intros bx v Hbx Hv.
    assert (Hoff : iadd (16 * X * by_) (imul bx 16) = 16 * X * by_ + 16 * bx).
    { unfold iadd, imul. rewrite (int64_small (bx * 16)) by nia.
      rewrite int64_small by nia. lia. }
    rewrite decodeBlockAt_eq by (try exact Hwf; rewrite Hoff; nia).
    rewrite Hoff.
    unfold imul, blockSize.
    rewrite (int64_small (bx * 4)), (int64_small (by_ * 4)) by nia.
    destruct (blockWrites_ok
                (texel (blockOfBytes (drop (Z.to_nat (16 * X * by_ + 16 * bx))
                                           (Slice.visible packed))))
                (bx * 4) (by_ * 4)
                (fun x y => y < 4 * by_ \/
                            (x < 4 * bx /\ 4 * by_ <= y < 4 * by_ + 4)) v)
      as (v' & Hb & Hv'); try lia.
    + intros i j Hi Hj _. rewrite block_pixels by lia. f_equal; lia.
    + exact Hv.
    + exists v'. split; [exact Hb|].
      revert Hv'. apply holds_weaken.
      intros x y Hx _ [HP|HP]; [left; left; exact HP|].
      destruct (Z_lt_le_dec x (4 * bx)); [left; right; lia|right; lia].
  - rewrite Hrun. cbn [bind]. eexists. split.
    + do 2 f_equal. unfold iadd, imul.
      rewrite (int64_small (X * 16)) by nia.
      rewrite int64_small by nia. lia.
    + revert Hu'. apply holds_weaken.
      intros x y Hx _ HP.
      destruct (Z_lt_le_dec y (4 * by_)); [left; lia|right; lia].
Qed.

(** The first [k] block rows, all within the image and the buffer. *)
Lemma rows_ok (k : Z) :
  0 <= k -> 4 * k <= height ->
  16 * X * k <= Z.of_nat (Slice.len packed) ->
  exists u,
    for_from (Z.to_nat k) 0 (rowBody packed width X)
      (0, replicate (Z.to_nat (width * height)) zeroRGBA) = Ok (16 * X * k, u) /\
    holds' (fun x y => y < 4 * k) u.
Proof.
  intros Hk Hfit Hbuf.
  pose proof X_bounds as (HX0 & HX1 & HX2).
  destruct (for_from_ok
              (fun by_ (st : Z * list RGBA) =>
                 fst st = 16 * X * by_ /\
                 holds' (fun x y => y < 4 * by_) (snd st))
              (rowBody packed width X) (Z.to_nat k) 0
              (0, replicate (Z.to_nat (width * height)) zeroRGBA))
    as ([off u] & Hrun & Hoff & Hu).
  - simpl. split; [lia|]. split.
    + rewrite length_replicate. nia.
    + intros x y Hx Hy Hn. lia.
  - intros by_ [off v] Hby [Hoff Hv]. simpl in Hoff, Hv. subst off.
    destruct (rowBody_ok by_ v) as (v' & Hb & Hv'); try lia; [nia|exact Hv|].
    eexists. split; [exact Hb|]. simpl. split; [reflexivity|exact Hv'].
  - simpl in Hoff, Hu. subst off. exists u.
    replace (0 + Z.of_nat (Z.to_nat k)) with k in * by lia.
    split; [exact Hrun|exact Hu].
Qed.

(** The texel row at the image height: its first write is at index
    [width*height], one past the end of the buffer. *)
Lemma rowWrites_panic (f : Z -> Z -> RGBA) (oy j : Z) (P : Z -> Z -> Prop)
    (u : list RGBA) :
  1 <= width -> 0 <= oy -> 0 <= j -> oy + j = height ->
  holds' P u ->
  for_loop blockSize (fun i unpacked =>
    if iadd 0 i <? width
    then store unpacked (texelIndex 0 oy width i j) (f i j)
    else Ok unpacked) u =
  Panic (PanicIndex (width * height) (Z.to_nat (width * height))).
Proof.
  intros Hw Hoy Hj Hrow [Hlen _].
  unfold for_loop, blockSize. change (Z.to_nat 4) with 4%nat.
  cbn [for_from]. change (iadd 0 0) with 0.
  replace (0 <? width) with true by (symmetry; apply Z.ltb_lt; lia).
  assert (Hidx : texelIndex 0 oy width 0 j = width * height).
  { unfold texelIndex. change (iadd 0 0) with 0. unfold iadd, imul.
    rewrite (int64_small (oy + j)) by lia.
    rewrite (int64_small ((oy + j) * width)) by nia.
    rewrite int64_small by nia. nia. }
  rewrite Hidx. unfold store.
  replace (width * height <? Z.of_nat (length u)) with false
    by (symmetry; apply Z.ltb_ge; lia).
  rewrite andb_false_r. cbn [bind].
  do 2 f_equal. lia.
Qed.

(** A block that overhangs the image height. *)
Lemma blockWrites_panic (f : Z -> Z -> RGBA) (oy : Z) (P : Z -> Z -> Prop)
    (u : list RGBA) :
  1 <= width -> 0 <= oy -> oy <= height < oy + 4 ->
  (forall i j, 0 <= i < 4 -> 0 <= j < 4 -> f i j = pix (0 + i) (oy + j)) ->
  holds' P u ->
  blockWrites f 0 oy width u =
  Panic (PanicIndex (width * height) (Z.to_nat (width * height))).
Proof.
  intros Hw Hoy Hover Hf Hu. unfold blockWrites, for_loop.
  apply (for_from_panic_at (fun _ v => exists Q, holds' Q v) _ _
           (Z.to_nat (height - oy))).
  - unfold blockSize. lia.
  - exists P. exact Hu.
  - intros j v Hj [Q Hv].
    destruct (rowWrites_ok f 0 oy j Q v) as (v' & Hrun & Hv'); try lia.
    + intros i Hi _. apply Hf; lia.
    + exact Hv.
    + exists v'. split; [exact Hrun|]. eexists. exact Hv'.
  - intros v [Q Hv].
    apply (rowWrites_panic f oy _ Q v); try lia. exact Hv.
Qed.

(** The block row that overhangs the image height. *)
Lemma rowBody_panic (by_ : Z) (P : Z -> Z -> Prop) (u : list RGBA) :
  1 <= width -> 0 <= by_ -> 4 * by_ <= height < 4 * by_ + 4 ->
  16 * X * (by_ + 1) <= Z.of_nat (Slice.len packed) ->
  holds' P u ->
  rowBody packed width X by_ (16 * X * by_, u) =
  Panic (PanicIndex (width * height) (Z.to_nat (width * height))).
Proof.
  intros Hw Hby Hover Hbuf Hu. unfold rowBody.
  pose proof X_bounds as (HX0 & HX1 & HX2).
  assert (Hcap : Z.of_nat (Slice.len packed) < 2 ^ 63).
  { destruct Hwf as [H1 H2]. lia. }
  unfold for_loop.
  destruct (Z.to_nat X) as [|n] eqn:HX; [lia|].
  cbn [for_from].
  assert (Hoff : iadd (16 * X * by_) (imul 0 16) = 16 * X * by_).
  { change (imul 0 16) with 0. unfold iadd. rewrite int64_small by nia. lia. }
  rewrite decodeBlockAt_eq by (try exact Hwf; rewrite Hoff; nia).
  rewrite Hoff. change (imul 0 blockSize) with 0.
  unfold imul, blockSize. rewrite (int64_small (by_ * 4)) by nia.
  rewrite (blockWrites_panic _ (by_ * 4) P u); try lia; try exact Hu.
  - reflexivity.
  - intros i j Hi Hj.
    replace (16 * X * by_) with (16 * X * by_ + 16 * 0) by lia.
    rewrite block_pixels by lia. f_equal; lia.
Qed.

End BlockRows.

Lemma decompressDxt5_rows (packed : Slice.t byte) (width height : Z) :
  decompressDxt5 packed width height =
  try! unpacked := makeRGBA (imul width height) in
  try! st := for_loop (idiv (iadd height 3) blockSize)
               (rowBody packed width (idiv (iadd width 3) blockSize))
               (0, unpacked) in
  Ok (snd st).
Proof. reflexivity. Qed.

Lemma imul_small (a b : Z) : - 2 ^ 63 <= a * b < 2 ^ 63 -> imul a b = a * b.
Proof. apply int64_small. Qed.

(** For an image whose height is a multiple of 4 and a buffer that
    holds all its blocks, [decompressDxt5] succeeds, and the pixel at
    [(x, y)] is texel [(x mod 4, y mod 4)] of block [(x/4, y/4)]: a width
    that is not a multiple of 4 is clipped, and bytes after the last block
    are ignored. *)
Lemma decompressDxt5_ok (packed : Slice.t byte) (width height : Z) :
  Slice.wf packed ->
  0 <= width < 2 ^ 32 -> 0 <= height < 2 ^ 32 ->
  height mod 4 = 0 ->
  (width + 3) / 4 * (height / 4) * 16 <= Z.of_nat (Slice.len packed) ->
  exists out,
    decompressDxt5 packed width height = Ok out /\
    Z.of_nat (length out) = width * height /\
    forall x y, 0 <= x < width -> 0 <= y < height ->
                out !! Z.to_nat (y * width + x) =
                Some (expectedPixel packed width x y).
Proof.
  intros Hwf Hw Hh Hmod Hbuf.
  pose proof (X_bounds width Hw) as (HX0 & HX1 & HX2).
  pose proof (Z.div_mod height 4 ltac:(lia)) as Hdiv. rewrite Hmod in Hdiv.
  set (Y := height / 4) in *. set (X := (width + 3) / 4) in *.
  assert (Hcap : Z.of_nat (Slice.len packed) < 2 ^ 63).
  { destruct Hwf as [H1 H2]. lia. }
  assert (Hsize : width * height < 2 ^ 63) by nia.
  rewrite decompressDxt5_rows.
  rewrite imul_small by nia.
  unfold makeRGBA.
  replace (width * height <? 0) with false by (symmetry; apply Z.ltb_ge; nia).
  cbn [bind]. rewrite !blockCount_eq by assumption.
  replace ((height + 3) / 4) with Y
    by (apply (Z.div_unique _ 4 Y 3); lia).
  fold X. unfold for_loop.
  destruct (rows_ok packed width height Hwf Hw Hh Hsize Y)
    as (u & Hrun & Hlen & Hpix); try lia.
  fold X in Hrun. rewrite Hrun. cbn [bind snd].
  exists u. split; [reflexivity|]. split; [exact Hlen|].
  intros x y Hx Hy. apply Hpix; lia.
Qed.

(** X1.  For an image whose height is a multiple of 4 and a buffer that
    holds all its blocks, [decompressDxt5] succeeds, and the pixel at
    [(x, y)] is texel [(x mod 4, y mod 4)] of block [(x/4, y/4)]: a width
    that is not a multiple of 4 is clipped, and bytes after the last block
    are ignored. *)
Theorem decompressDxt5_decodes (packed : Slice.t byte) (width height : Z) :
  Slice.wf packed ->
  0 <= width < 2 ^ 32 -> 0 <= height < 2 ^ 32 ->
  height mod 4 = 0 ->
  (width + 3) / 4 * (height / 4) * 16 <= Z.of_nat (Slice.len packed) ->
  exists out,
    decompressDxt5 packed width height = Ok out /\
    Z.of_nat (length out) = width * height /\
    forall x y, 0 <= x < width -> 0 <= y < height ->
                out !! Z.to_nat (y * width + x) =
                Some (expectedPixel packed width x y).
Proof. apply decompressDxt5_ok. Qed.

(** X2.  For an image at least one pixel wide whose height is not a
    multiple of 4, and a buffer that holds all its blocks,
    [decompressDxt5] panics: the first block of the last block row indexes
    the buffer at [width*height]. *)
Theorem decompressDxt5_partial_row_panics (packed : Slice.t byte)
    (width height : Z) :
  Slice.wf packed ->
  1 <= width < 2 ^ 32 -> 0 <= height < 2 ^ 32 ->
  height mod 4 <> 0 ->
  (width + 3) / 4 * ((height + 3) / 4) * 16 <= Z.of_nat (Slice.len packed) ->
  decompressDxt5 packed width height =
  Panic (PanicIndex (width * height) (Z.to_nat (width * height))).
Proof.
  intros Hwf Hw Hh Hmod Hbuf.
  assert (Hw0 : 0 <= width < 2 ^ 32) by lia.
  pose proof (X_bounds width Hw0) as (HX0 & HX1 & HX2).
  pose proof (Z.div_mod height 4 ltac:(lia)) as Hdiv.
  pose proof (Z.mod_pos_bound height 4 ltac:(lia)) as Hrem.
  set (Yf := height / 4) in *. set (X := (width + 3) / 4) in *.
  assert (HY : (height + 3) / 4 = Yf + 1)
    by (symmetry; apply (Z.div_unique _ 4 (Yf + 1) (height mod 4 - 1)); lia).
  rewrite HY in Hbuf.
  assert (Hcap : Z.of_nat (Slice.len packed) < 2 ^ 63).
  { destruct Hwf as [H1 H2]. lia. }
  assert (Hsize : width * height < 2 ^ 63) by nia.
  rewrite decompressDxt5_rows.
  rewrite imul_small by nia.
  unfold makeRGBA.
  replace (width * height <? 0) with false by (symmetry; apply Z.ltb_ge; nia).
  cbn [bind]. rewrite !blockCount_eq by assumption.
  rewrite HY. fold X. unfold for_loop.
  rewrite (for_from_panic_at
             (fun by_ (st : Z * list RGBA) =>
                fst st = 16 * X * by_ /\
                holds width height (expectedPixel packed width)
                      (fun x y => y < 4 * by_) (snd st))
             (rowBody packed width X)
             (PanicIndex (width * height) (Z.to_nat (width * height)))
             (Z.to_nat Yf)).
  - reflexivity.
  - lia.
  - simpl. split; [lia|]. split.
    + rewrite length_replicate. nia.
    + intros x y Hx Hy Hn. lia.
  - intros by_ [off v] Hby [Hoff Hv]. simpl in Hoff, Hv. subst off.
    destruct (rowBody_ok packed width height Hwf Hw0 Hh Hsize by_ v)
      as (v' & Hb & Hv'); try lia; [fold X; nia|exact Hv|].
    fold X in Hb. eexists. split; [exact Hb|].
    simpl. split; [reflexivity|exact Hv'].
  - intros [off v] [Hoff Hv]. simpl in Hoff, Hv. subst off.
    replace (0 + Z.of_nat (Z.to_nat Yf)) with Yf by lia.
    eapply (rowBody_panic packed width height Hwf Hw0 Hh Hsize Yf);
      try lia; exact Hv.
Qed.

Lemma decompressDxt5_decodes_witness :
  exists out,
    decompressDxt5 (Slice.of_list (replicate 32 xff)) 5 4 = Ok out /\
    Z.of_nat (length out) = 5 * 4 /\
    forall x y, 0 <= x < 5 -> 0 <= y < 4 ->
                out !! Z.to_nat (y * 5 + x) =
                Some (expectedPixel (Slice.of_list (replicate 32 xff)) 5 x y).
Proof.
  apply decompressDxt5_decodes.
  - split; [unfold Slice.cap; simpl; lia | vm_compute; reflexivity].
  - lia.
  - lia.
  - reflexivity.
  - vm_compute. discriminate.
Defined.

Lemma decompressDxt5_partial_row_panics_witness :
  decompressDxt5 (Slice.of_list (replicate 32 x00)) 3 6 =
  Panic (PanicIndex (3 * 6) (Z.to_nat (3 * 6))).
Proof.
  apply decompressDxt5_partial_row_panics.
  - split; [unfold Slice.cap; simpl; lia | vm_compute; reflexivity].
  - lia.
  - lia.
  - vm_compute. discriminate.
  - vm_compute. discriminate.
Defined.

(** ** Bytes after the last block *)

Lemma expectedPixel_prefix (p1 p2 : Slice.t byte) (width height x y : Z) :
  0 <= width -> 0 <= x < width -> 0 <= y < height -> height mod 4 = 0 ->
  take (Z.to_nat ((width + 3) / 4 * (height / 4) * 16)) (Slice.visible p1) =
  take (Z.to_nat ((width + 3) / 4 * (height / 4) * 16)) (Slice.visible p2) ->
  expectedPixel p1 width x y = expectedPixel p2 width x y.
Proof.
  intros Hw Hx Hy Hmod Hpre. unfold expectedPixel.
  set (X := (width + 3) / 4) in *. set (Y := height / 4) in *.
  set (off := 16 * (y / 4 * X + x / 4)).
  assert (Hoff : 0 <= off /\ off + 16 <= X * Y * 16).
  { pose proof (Z.div_mod height 4 ltac:(lia)) as Hh. rewrite Hmod in Hh.
    pose proof (Z.div_mod (width + 3) 4 ltac:(lia)).
    pose proof (Z.mod_pos_bound (width + 3) 4 ltac:(lia)).
    pose proof (Z.div_mod x 4 ltac:(lia)).
    pose proof (Z.mod_pos_bound x 4 ltac:(lia)).
    pose proof (Z.div_mod y 4 ltac:(lia)).
    pose proof (Z.mod_pos_bound y 4 ltac:(lia)).
    fold X in H. fold Y in Hh. subst off.
    assert (0 <= x / 4 < X) by lia.
    assert (0 <= y / 4 < Y) by lia.
    nia. }
  f_equal.
  rewrite <- (blockOfBytes_take (drop _ (Slice.visible p1)) 16) by lia.
  rewrite <- (blockOfBytes_take (drop _ (Slice.visible p2)) 16) by lia.
  rewrite <- (take_drop_take (Slice.visible p1) 16 (Z.to_nat off)
                (Z.to_nat (X * Y * 16))) by lia.
  rewrite <- (take_drop_take (Slice.visible p2) 16 (Z.to_nat off)
                (Z.to_nat (X * Y * 16))) by lia.
  rewrite Hpre. reflexivity.
Qed.

(** X3.  Only the blocks of the image are read: two buffers that agree
    on the first [ceil(width/4) * (height/4) * 16] bytes decode to the same
    pixels, whatever follows (further mipmap levels, padding). *)
Theorem decompressDxt5_ignores_trailing (p1 p2 : Slice.t byte)
    (width height : Z) :
  Slice.wf p1 -> Slice.wf p2 ->
  0 <= width < 2 ^ 32 -> 0 <= height < 2 ^ 32 ->
  height mod 4 = 0 ->
  (width + 3) / 4 * (height / 4) * 16 <= Z.of_nat (Slice.len p1) ->
  (width + 3) / 4 * (height / 4) * 16 <= Z.of_nat (Slice.len p2) ->
  take (Z.to_nat ((width + 3) / 4 * (height / 4) * 16)) (Slice.visible p1) =
  take (Z.to_nat ((width + 3) / 4 * (height / 4) * 16)) (Slice.visible p2) ->
  exists out, decompressDxt5 p1 width height = Ok out /\
              decompressDxt5 p2 width height = Ok out.
Proof.
  intros Hwf1 Hwf2 Hw Hh Hmod Hb1 Hb2 Hpre.
  destruct (decompressDxt5_ok p1 width height Hwf1 Hw Hh Hmod Hb1)
    as (o1 & Hr1 & Hl1 & Hp1).
  destruct (decompressDxt5_ok p2 width height Hwf2 Hw Hh Hmod Hb2)
    as (o2 & Hr2 & Hl2 & Hp2).
  exists o1. split; [exact Hr1|]. rewrite Hr2. f_equal.
  apply list_eq. intros k.
  destruct (decide (k < length o1)%nat) as [Hk|Hk].
  - assert (Hwpos : 0 < width) by nia.
    pose proof (Z.div_mod (Z.of_nat k) width ltac:(lia)) as Hdm.
    pose proof (Z.mod_pos_bound (Z.of_nat k) width Hwpos) as Hm.
    set (y := Z.of_nat k / width) in *. set (x := Z.of_nat k mod width) in *.
    assert (Hy : 0 <= y < height).
    { split; [apply Z.div_pos; lia|]. apply Z.div_lt_upper_bound; lia. }
    replace k with (Z.to_nat (y * width + x)) by lia.
    rewrite (Hp1 x y Hm Hy), (Hp2 x y Hm Hy). f_equal. symmetry.
    apply (expectedPixel_prefix p1 p2 width height); try assumption; lia.
  - rewrite !lookup_ge_None_2 by lia. reflexivity.
Qed.

Lemma decompressDxt5_ignores_trailing_witness :
  exists out,
    decompressDxt5 (Slice.of_list (replicate 16 xff)) 4 4 = Ok out /\
    decompressDxt5 (Slice.of_list (replicate 16 xff ++ [x01; x02])) 4 4 = Ok out.
Proof.
  apply decompressDxt5_ignores_trailing.
  - split; [unfold Slice.cap; simpl; lia | vm_compute; reflexivity].
  - split; [unfold Slice.cap; simpl; lia | vm_compute; reflexivity].
  - lia.
  - lia.
  - reflexivity.
  - vm_compute. discriminate.
  - vm_compute. discriminate.
  - reflexivity.
Defined.

(** ** Where the interpolation is exact *)

Lemma finalAlphaOf_5step (alpha0 alpha1 alphaCode : Z) :
  0 <= alpha0 < 256 -> 0 <= alpha1 < 256 -> alpha0 <= alpha1 ->
  2 <= alphaCode <= 5 ->
  finalAlphaOf alpha0 alpha1 alphaCode =
  (((6 - alphaCode) * alpha0 + (alphaCode - 1) * alpha1) mod 256) / 5.
Proof.
  intros H0 H1 Hle Hc. unfold finalAlphaOf.
  replace (alphaCode =? 0) with false by (symmetry; apply Z.eqb_neq; lia).
  replace (alphaCode =? 1) with false by (symmetry; apply Z.eqb_neq; lia).
  replace (alpha1 <? alpha0) with false by (symmetry; apply Z.ltb_ge; lia).
  replace (alphaCode =? 6) with false by (symmetry; apply Z.eqb_neq; lia).
  replace (alphaCode =? 7) with false by (symmetry; apply Z.eqb_neq; lia).
  unfold div8, add8, mul8, sub8.
  rewrite (u8_small alphaCode) by lia.
  rewrite (u8_small (6 - alphaCode)), (u8_small (alphaCode - 1)) by lia.
  unfold u8. change (2 ^ 8) with 256.
  rewrite <- Zplus_mod. reflexivity.
Qed.

(** A sum reduced modulo 256 and then divided by [d] equals the exact
    quotient only when the sum was below 256. *)
Lemma wrapped_quotient (s d : Z) :
  0 <= s -> 0 < d <= 256 ->
  ((s mod 256) / d = s / d <-> s < 256).
Proof.
  intros Hs Hd. split.
  - intros Heq.
    pose proof (Z.div_mod s 256 ltac:(lia)) as H1.
    pose proof (Z.mod_pos_bound s 256 ltac:(lia)) as H2.
    pose proof (Z.div_mod (s mod 256) d ltac:(lia)) as H3.
    pose proof (Z.mod_pos_bound (s mod 256) d ltac:(lia)) as H4.
    pose proof (Z.div_mod s d ltac:(lia)) as H5.
    pose proof (Z.mod_pos_bound s d ltac:(lia)) as H6.
    assert (0 <= s / 256) by (apply Z.div_pos; lia).
    rewrite Heq in H3. nia.
  - intros Hlt. rewrite Z.mod_small by lia. reflexivity.
Qed.

(** X4.  For byte endpoints and an interpolated code, the alpha the
    source computes equals the exact BC3 value
    [((8-code)*alpha0 + (code-1)*alpha1) / 7] (7-step table) or
    [((6-code)*alpha0 + (code-1)*alpha1) / 5] (5-step table) exactly when
    the weighted sum is below 256; for every larger sum the [uint8]
    arithmetic gives a different value. *)
Theorem finalAlphaOf_exact_iff (alpha0 alpha1 alphaCode : Z) :
  0 <= alpha0 < 256 -> 0 <= alpha1 < 256 ->
  (alpha1 < alpha0 -> 2 <= alphaCode <= 7 ->
   (finalAlphaOf alpha0 alpha1 alphaCode =
    ((8 - alphaCode) * alpha0 + (alphaCode - 1) * alpha1) / 7
    <-> (8 - alphaCode) * alpha0 + (alphaCode - 1) * alpha1 < 256)) /\
  (alpha0 <= alpha1 -> 2 <= alphaCode <= 5 ->
   (finalAlphaOf alpha0 alpha1 alphaCode =
    ((6 - alphaCode) * alpha0 + (alphaCode - 1) * alpha1) / 5
    <-> (6 - alphaCode) * alpha0 + (alphaCode - 1) * alpha1 < 256)).
Proof.
  intros H0 H1. split.
  - intros Hlt Hc. rewrite finalAlphaOf_7step by assumption.
    apply wrapped_quotient; nia.
  - intros Hle Hc. rewrite finalAlphaOf_5step by assumption.
    apply wrapped_quotient; nia.
Qed.

Lemma finalAlphaOf_exact_iff_witness :
  finalAlphaOf 40 10 2 = ((8 - 2) * 40 + (2 - 1) * 10) / 7 /\
  finalAlphaOf 255 255 2 <> ((6 - 2) * 255 + (2 - 1) * 255) / 5.
Proof.
  pose proof (finalAlphaOf_exact_iff 40 10 2 ltac:(lia) ltac:(lia)) as [H7 _].
  pose proof (finalAlphaOf_exact_iff 255 255 2 ltac:(lia) ltac:(lia)) as [_ H5].
  split.
  - apply (H7 ltac:(lia) ltac:(lia)). lia.
  - intros Heq. apply (H5 ltac:(lia) ltac:(lia)) in Heq. lia.
Defined.

Lemma blend_mod (a b : Z) :
  ((2 * a) mod 256 + b) mod 256 = (2 * a + b) mod 256 /\
  (b + (2 * a) mod 256) mod 256 = (b + 2 * a) mod 256.
Proof.
  split.
  - apply Zplus_mod_idemp_l.
  - apply Zplus_mod_idemp_r.
Qed.

(** X5.  For byte channels, the colour of code 2 equals the exact blend
    [(2*c0 + c1) / 3] in every channel exactly when [2*c0 + c1] is below
    256 in every channel, and likewise for code 3 with [(c0 + 2*c1) / 3]. *)
Theorem finalColourOf_exact_iff (colour0 colour1 : RGBA) :
  isByteColour colour0 -> isByteColour colour1 ->
  (finalColourOf colour0 colour1 2 =
     mkRGBA ((2 * R colour0 + R colour1) / 3)
            ((2 * G colour0 + G colour1) / 3)
            ((2 * B colour0 + B colour1) / 3) 0
   <-> 2 * R colour0 + R colour1 < 256 /\
       2 * G colour0 + G colour1 < 256 /\
       2 * B colour0 + B colour1 < 256) /\
  (finalColourOf colour0 colour1 3 =
     mkRGBA ((R colour0 + 2 * R colour1) / 3)
            ((G colour0 + 2 * G colour1) / 3)
            ((B colour0 + 2 * B colour1) / 3) 0
   <-> R colour0 + 2 * R colour1 < 256 /\
       G colour0 + 2 * G colour1 < 256 /\
       B colour0 + 2 * B colour1 < 256).
Proof.
  intros (Hr0 & Hg0 & Hb0) (Hr1 & Hg1 & Hb1).
  destruct (finalColourOf_blend colour0 colour1) as [E2 E3].
  rewrite E2, E3.
  rewrite !(proj1 (blend_mod _ _)), !(proj2 (blend_mod _ _)).
  split; split.
  - intros H. injection H as HR HG HB.
    apply wrapped_quotient in HR, HG, HB; lia.
  - intros (HR & HG & HB). rewrite !Z.mod_small by lia. reflexivity.
  - intros H. injection H as HR HG HB.
    apply wrapped_quotient in HR, HG, HB; lia.
  - intros (HR & HG & HB). rewrite !Z.mod_small by lia. reflexivity.
Qed.

Lemma finalColourOf_exact_iff_witness :
  finalColourOf (mkRGBA 100 0 20 0) (mkRGBA 40 255 8 0) 2 =
  mkRGBA 80 85 16 0.
Proof.
  assert (H0 : isByteColour (mkRGBA 100 0 20 0))
    by (unfold isByteColour; simpl; lia).
  assert (H1 : isByteColour (mkRGBA 40 255 8 0))
    by (unfold isByteColour; simpl; lia).
  apply (proj2 (proj1 (finalColourOf_exact_iff _ _ H0 H1))).
  simpl. lia.
Defined.

(** ** The materialized BC3 surface *)

Lemma pixel_bytes_length (l : list RGBA) :
  length (flat_map (fun pixel => [R pixel; G pixel; B pixel; A pixel]) l) =
  (4 * length l)%nat.
Proof. induction l as [|p l IH]; simpl; [reflexivity|]. rewrite IH. lia. Qed.

Lemma pixel_bytes_lookup (l : list RGBA) (k : nat) (p : RGBA) :
  l !! k = Some p ->
  let bytes := flat_map (fun pixel => [R pixel; G pixel; B pixel; A pixel]) l in
  bytes !! (4 * k)%nat = Some (R p) /\
  bytes !! (4 * k + 1)%nat = Some (G p) /\
  bytes !! (4 * k + 2)%nat = Some (B p) /\
  bytes !! (4 * k + 3)%nat = Some (A p).
Proof.
  revert k. induction l as [|q l IH]; intros k Hk; [discriminate|].
  destruct k as [|k].
  - injection Hk as ->. simpl. auto.
  - simpl in Hk. specialize (IH k Hk). cbv zeta in *.
    replace (4 * Datatypes.S k)%nat with (4 + 4 * k)%nat by lia.
    exact IH.
Qed.

Lemma of_list_visible {A} (l : list A) : Slice.visible (Slice.of_list l) = l.
Proof. unfold Slice.visible, Slice.of_list. simpl. apply take_ge. lia. Qed.

Lemma imageRect_nonneg (w h : Z) :
  0 <= w -> 0 <= h -> imageRect 0 0 w h = mkRect 0 0 w h.
Proof.
  intros Hw Hh. unfold imageRect.
  replace (w <? 0) with false by (symmetry; apply Z.ltb_ge; lia).
  replace (h <? 0) with false by (symmetry; apply Z.ltb_ge; lia).
  reflexivity.
Qed.

(** X6.  For a header with 32-bit fields whose height is a multiple of 4
    and whose width is below 2^30, and a stream that holds the blocks of
    the image, [decodeDXT5DDS] returns an [image.RGBA] over
    [(0,0)-(width,height)] with [Stride = 4*width] and
    [len(Pix) = Stride*height], in which the four bytes at
    [y*Stride + x*4] are the R, G, B, A of the texel that the stream
    encodes at [(x, y)]. *)
Theorem decodeDXT5DDS_surface (spare : nat -> nat) (hd : Header.t) (r : reader) :
  Header.wf hd ->
  Header.height hd mod 4 = 0 ->
  Header.width hd < 2 ^ 30 ->
  Z.of_nat (length r + spare (length r)) < 2 ^ 63 ->
  (Header.width hd + 3) / 4 * (Header.height hd / 4) * 16 <= Z.of_nat (length r) ->
  exists m,
    decodeDXT5DDS spare hd r = Ok (ImageRGBA m) /\
    Stride m = 4 * Header.width hd /\
    Rect m = mkRect 0 0 (Header.width hd) (Header.height hd) /\
    Z.of_nat (length (Pix m)) = Stride m * Header.height hd /\
    forall x y, 0 <= x < Header.width hd -> 0 <= y < Header.height hd ->
      let p := expectedPixel (Slice.of_list r) (Header.width hd) x y in
      let o := Z.to_nat (y * Stride m + x * 4) in
      Pix m !! o = Some (R p) /\ Pix m !! (o + 1)%nat = Some (G p) /\
      Pix m !! (o + 2)%nat = Some (B p) /\ Pix m !! (o + 3)%nat = Some (A p).
Proof.
  intros (Hh & Hw & _) Hmod Hw30 Hcap Hbuf. unfold PixelFormat.is_u32 in *.
  unfold decodeDXT5DDS.
  destruct (decompressDxt5_ok (ReadAll spare r) (Header.width hd)
              (Header.height hd)) as (out & Hrun & Hlen & Hpix);
    try assumption.
  { apply ReadAll_wf. exact Hcap. }
  rewrite Hrun. cbn [bind]. eexists. split; [reflexivity|].
  cbn [Stride Rect Pix].
  rewrite u32_small by lia. rewrite imageRect_nonneg by lia.
  split; [reflexivity|]. split; [reflexivity|]. split.
  - rewrite pixel_bytes_length. nia.
  - intros x y Hx Hy. cbv zeta.
    set (p := expectedPixel (Slice.of_list r) (Header.width hd) x y).
    specialize (Hpix x y Hx Hy).
    assert (Hp : expectedPixel (ReadAll spare r) (Header.width hd) x y = p).
    { subst p. unfold expectedPixel.
      rewrite ReadAll_visible, of_list_visible. reflexivity. }
    rewrite Hp in Hpix.
    replace (Z.to_nat (y * (4 * Header.width hd) + x * 4))
      with (4 * Z.to_nat (y * Header.width hd + x))%nat by nia.
    apply (pixel_bytes_lookup out _ p Hpix).
Qed.

Lemma decodeDXT5DDS_surface_witness :
  exists m,
    decodeDXT5DDS (fun _ => 512%nat) (sampleFormat compressionTypeDXT5 4)
      (replicate 16 xff) = Ok (ImageRGBA m) /\
    Stride m = 16 /\ Z.of_nat (length (Pix m)) = 64.
Proof.
  destruct (decodeDXT5DDS_surface (fun _ => 512%nat)
              (sampleFormat compressionTypeDXT5 4) (replicate 16 xff))
    as (m & Hrun & Hs & _ & Hl & _).
  - unfold Header.wf, PixelFormat.wf, PixelFormat.is_u32; simpl.
    repeat split; try lia; vm_compute; first [reflexivity | discriminate].
  - reflexivity.
  - simpl. lia.
  - vm_compute. reflexivity.
  - vm_compute. discriminate.
  - exists m. split; [exact Hrun|]. split; [exact Hs|].
    rewrite Hl, Hs. reflexivity.
Defined.

(** ** The uncompressed surface: reading it in and reading from it *)

(** The three outcomes of [decodeUncompressedDDS]. *)
Lemma decodeUncompressedDDS_cases (pfAlphaPixels pfRGB : Z) (hd : Header.t)
    (r : reader) :
  let pf := Header.pixelFormat hd in
  let flags := PixelFormat.flags pf in
  let pitch := pitch32 hd in
  let n := Z.to_nat (size32 hd) in
  decodeUncompressedDDS pfAlphaPixels pfRGB hd r =
  if negb (Z.land flags (Z.lor pfAlphaPixels pfRGB) =? Z.lor pfAlphaPixels pfRGB)
  then Err (ErrUnsupportedPixelFormat flags)
  else if (n <=? length r)%nat
  then Ok (ImageImg (mkImg hd (Slice.of_list (take n r))
                       (lowestSetBit (PixelFormat.rBitMask pf))
                       (lowestSetBit (PixelFormat.gBitMask pf))
                       (lowestSetBit (PixelFormat.bBitMask pf))
                       (lowestSetBit (PixelFormat.aBitMask pf))
                       (PixelFormat.rgbBitCount pf / 8) pitch))
  else Err (ErrReadingImage
              (if (length r =? 0)%nat then ErrEOF else ErrUnexpectedEOF)).
Proof.
  cbv zeta. unfold decodeUncompressedDDS, ReadFull, pitch32, size32.
  destruct (negb _); [reflexivity|].
  destruct (_ <=? _)%nat; [reflexivity|].
  destruct (_ =? _)%nat; reflexivity.
Qed.

(** X7.  [decodeUncompressedDDS] returns a surface exactly when both
    pixel-format flags are set and the stream holds the [pitch*height]
    bytes of pixel data (as computed in 32 bits); the surface then owns
    exactly those bytes, and bytes that follow are not consumed.  With
    both flags set and fewer bytes the result is the "reading image" error,
    wrapping [io.EOF] for an empty stream and [io.ErrUnexpectedEOF]
    otherwise. *)
Theorem decodeUncompressedDDS_reads (pfAlphaPixels pfRGB : Z) (hd : Header.t)
    (r : reader) :
  let flags := PixelFormat.flags (Header.pixelFormat hd) in
  let both := Z.land flags pfAlphaPixels = pfAlphaPixels /\
              Z.land flags pfRGB = pfRGB in
  let n := Z.to_nat (size32 hd) in
  ((exists m, decodeUncompressedDDS pfAlphaPixels pfRGB hd r = Ok m)
   <-> both /\ (n <= length r)%nat) /\
  (forall m, decodeUncompressedDDS pfAlphaPixels pfRGB hd r = Ok (ImageImg m) ->
             Slice.visible (buf m) = take n r /\ Slice.cap (buf m) = n /\
             pitch m = pitch32 hd) /\
  (both -> (length r < n)%nat ->
   decodeUncompressedDDS pfAlphaPixels pfRGB hd r =
   Err (ErrReadingImage (if (length r =? 0)%nat then ErrEOF
                         else ErrUnexpectedEOF))).
Proof.
  intros flags both n.
  rewrite decodeUncompressedDDS_cases. fold flags n.
  destruct (Z.eqb_spec (Z.land flags (Z.lor pfAlphaPixels pfRGB))
              (Z.lor pfAlphaPixels pfRGB)) as [Heq|Hne]; cbn [negb].
  - assert (Hboth : both) by (apply land_lor_both; exact Heq).
    destruct (Nat.leb_spec n (length r)) as [Hn|Hn].
    + split; [split; [intros _; split; assumption|intros _; eauto]|].
      split; [|intros _ Hlt; lia].
      intros m Hm. injection Hm as <-. cbn [buf pitch].
      rewrite of_list_visible. unfold Slice.cap, Slice.of_list. simpl.
      rewrite length_take. split; [reflexivity|]. split; [lia|reflexivity].
    + split; [split; [intros [m Hm]; discriminate|intros [_ Hle]; lia]|].
      split; [intros m Hm; discriminate|]. intros _ _. reflexivity.
  - assert (Hnb : ~ both).
    { intros Hb. apply Hne. apply land_lor_both. exact Hb. }
    split; [split; [intros [m Hm]; discriminate|intros [Hb _]; contradiction]|].
    split; [intros m Hm; discriminate|]. intros Hb. contradiction.
Qed.

Lemma decodeUncompressedDDS_reads_witness :
  decodeUncompressedDDS 1 64 smallHeader [x01; x02; x03] =
  Err (ErrReadingImage ErrUnexpectedEOF).
Proof.
  apply (proj2 (proj2 (decodeUncompressedDDS_reads 1 64 smallHeader
                         [x01; x02; x03]))).
  - split; reflexivity.
  - vm_compute. lia.
Defined.

(** No-padding rows: when the bit count is a multiple of 8 the pitch is
    [stride * width]. *)
Lemma pitch32_no_padding (hd : Header.t) :
  let bc := PixelFormat.rgbBitCount (Header.pixelFormat hd) in
  0 <= Header.width hd -> 0 <= bc -> bc mod 8 = 0 ->
  Header.width hd * bc + 7 < 2 ^ 32 ->
  pitch32 hd = bc / 8 * Header.width hd.
Proof.
  intros bc Hw Hbc Hmod Hrow. unfold pitch32. fold bc.
  rewrite (u32_small (Header.width hd * bc)) by nia.
  rewrite u32_small by nia.
  pose proof (Z.div_mod bc 8 ltac:(lia)) as Hd. rewrite Hmod in Hd.
  symmetry. apply (Z.div_unique _ 8 _ 7); nia.
Qed.

(** X10.  [img.At] does not check its coordinates against the bounds.  On
    a surface without row padding (a bit count that is a multiple of 8),
    a point right of the last column reads the pixel of the next row:
    [At(x + width, y) = At(x, y + 1)]. *)
Theorem At_wraps_to_next_row (pfAlphaPixels pfRGB : Z) (hd : Header.t)
    (r : reader) (m : img) (x y : Z) :
  Header.wf hd ->
  PixelFormat.rgbBitCount (Header.pixelFormat hd) mod 8 = 0 ->
  Header.width hd * PixelFormat.rgbBitCount (Header.pixelFormat hd) + 7 < 2 ^ 32 ->
  decodeUncompressedDDS pfAlphaPixels pfRGB hd r = Ok (ImageImg m) ->
  0 <= x < 2 ^ 30 -> 0 <= y < 2 ^ 30 ->
  At m (x + Header.width hd) y = At m x (y + 1).
Proof.
  intros (Hh & Hw & Hpf) Hmod Hrow Hdec Hx Hy.
  assert (Hbc : 0 <= PixelFormat.rgbBitCount (Header.pixelFormat hd) < 2 ^ 32)
    by (destruct Hpf as (_ & _ & Hb & _); exact Hb).
  unfold PixelFormat.is_u32 in *.
  rewrite decodeUncompressedDDS_cases in Hdec. cbv zeta in Hdec.
  destruct (negb _); [discriminate|].
  destruct (_ <=? _)%nat; [|discriminate].
  injection Hdec as <-.
  rewrite pitch32_no_padding by (assumption || lia).
  set (s := PixelFormat.rgbBitCount (Header.pixelFormat hd) / 8).
  assert (Hs : 0 <= s < 2 ^ 29).
  { subst s. split; [apply Z.div_pos; lia|].
    apply Z.div_lt_upper_bound; lia. }
  assert (Hsw : s * Header.width hd < 2 ^ 32).
  { pose proof (Z.div_mod (PixelFormat.rgbBitCount (Header.pixelFormat hd)) 8
                  ltac:(lia)) as Hd.
    rewrite Hmod in Hd. fold s in Hd. nia. }
  unfold At. cbn [h buf rBit gBit bBit aBit stride pitch].
  replace (iadd (imul (s * Header.width hd) y) (imul s (x + Header.width hd)))
    with (iadd (imul (s * Header.width hd) (y + 1)) (imul s x)).
  - reflexivity.
  - unfold iadd, imul.
    rewrite !(int64_small (s * Header.width hd * _)) by nia.
    rewrite !(int64_small (s * _)) by nia.
    f_equal. lia.
Qed.

(** On a 2x2 surface the point (2,0), right of the last column, is
    answered with the pixel (0,1) of the next row. *)
Lemma At_wraps_to_next_row_witness :
  At (mkImg squareHeader (Slice.of_list sixteenBytes) 0 8 16 24 4 8) (0 + 2) 0 =
  At (mkImg squareHeader (Slice.of_list sixteenBytes) 0 8 16 24 4 8) 0 (0 + 1) /\
  At (mkImg squareHeader (Slice.of_list sixteenBytes) 0 8 16 24 4 8) 0 (0 + 1) =
  Ok (NRGBA 9 10 11 12).
Proof.
  split; [|vm_compute; reflexivity].
  apply (At_wraps_to_next_row 1 64 squareHeader sixteenBytes).
  - unfold Header.wf, PixelFormat.wf, PixelFormat.is_u32; simpl.
    repeat split; try lia; vm_compute; first [reflexivity | discriminate].
  - reflexivity.
  - vm_compute. reflexivity.
  - vm_compute. reflexivity.
  - lia.
  - lia.
Defined.

(** X11.  A point below the last row, or above the first one, is not
    answered with a zero colour either: the re-slice [buf[arrPsn:]] is out
    of range and [img.At] panics. *)
Theorem At_outside_panics (pfAlphaPixels pfRGB : Z) (hd : Header.t)
    (r : reader) (m : img) (x y : Z) :
  let bc := PixelFormat.rgbBitCount (Header.pixelFormat hd) in
  Header.wf hd ->
  0 < Header.width hd * bc -> Header.width hd * bc + 7 < 2 ^ 32 ->
  (Header.width hd * bc + 7) / 8 * Header.height hd < 2 ^ 32 ->
  decodeUncompressedDDS pfAlphaPixels pfRGB hd r = Ok (ImageImg m) ->
  (0 <= x < 2 ^ 30 /\ Header.height hd < y < 2 ^ 30) \/
  (- 2 ^ 30 < x <= 0 /\ - 2 ^ 30 < y < 0) ->
  At m x y = Panic PanicSliceBounds.
Proof.
  intros bc (Hh & Hw & Hpf) Hpos Hrow Hsize Hdec Hxy.
  assert (Hbc : 0 <= bc < 2 ^ 32)
    by (destruct Hpf as (_ & _ & Hb & _); exact Hb).
  unfold PixelFormat.is_u32 in *.
  rewrite decodeUncompressedDDS_cases in Hdec. cbv zeta in Hdec.
  destruct (negb _); [discriminate|].
  destruct (Nat.leb_spec (Z.to_nat (size32 hd)) (length r)) as [Hn|Hn];
    [|discriminate].
  injection Hdec as <-.
  assert (Hp : pitch32 hd = (Header.width hd * bc + 7) / 8).
  { unfold pitch32. fold bc. rewrite (u32_small (_ * _)) by lia.
    rewrite u32_small by lia. reflexivity. }
  assert (Hsz : size32 hd = (Header.width hd * bc + 7) / 8 * Header.height hd).
  { unfold size32. rewrite Hp. apply u32_small.
    split; [|exact Hsize]. apply Z.mul_nonneg_nonneg; [apply Z.div_pos|]; lia. }
  set (p := (Header.width hd * bc + 7) / 8) in *.
  assert (Hp1 : 1 <= p < 2 ^ 32).
  { subst p. split.
    - apply Z.div_le_lower_bound; lia.
    - apply Z.div_lt_upper_bound; lia. }
  set (s := bc / 8).
  assert (Hs : 0 <= s < 2 ^ 29).
  { subst s. split; [apply Z.div_pos; lia|].
    apply Z.div_lt_upper_bound; lia. }
  unfold At. cbn [h buf rBit gBit bBit aBit stride pitch]. fold bc s.
  rewrite Hp.
  assert (Hpsn : iadd (imul p y) (imul s x) = p * y + s * x).
  { unfold iadd, imul.
    rewrite (int64_small (p * y)), (int64_small (s * x)) by nia.
    apply int64_small. nia. }
  rewrite Hpsn. unfold Slice.from, Slice.range.
  cbn [Slice.len Slice.of_list Slice.arr].
  rewrite length_take. rewrite Nat.min_l by exact Hn. rewrite Hsz.
  destruct Hxy as [[Hx Hy]|[Hx Hy]].
  - replace (p * y + s * x <=? _) with false
      by (symmetry; apply Z.leb_gt; nia).
    rewrite andb_false_r. reflexivity.
  - replace (0 <=? p * y + s * x) with false
      by (symmetry; apply Z.leb_gt; nia).
    reflexivity.
Qed.

Lemma At_outside_panics_witness :
  At (mkImg smallHeader (Slice.of_list eightBytes) 0 8 16 24 4 8) 0 2 =
  Panic PanicSliceBounds.
Proof.
  apply (At_outside_panics 1 64 smallHeader eightBytes).
  - unfold Header.wf, PixelFormat.wf, PixelFormat.is_u32; simpl.
    repeat split; try lia; vm_compute; first [reflexivity | discriminate].
  - vm_compute. reflexivity.
  - vm_compute. reflexivity.
  - vm_compute. reflexivity.
  - vm_compute. reflexivity.
  - left. simpl. lia.
Defined.

(** ** [DecodeConfig] *)

Section ConfigProperties.

Variable readHeader : reader -> outcome (Header.t * reader).
Variable DecodeDXT1 : Slice.t byte -> Z -> Z -> outcome (list Z).
Variable pfAlphaPixels pfAlpha pfFourCC pfRGB pfYUV pfLuminance : Z.
Variable readAllSpare : nat -> nat.

Local Abbreviation config :=
  (DecodeConfig readHeader pfAlphaPixels pfAlpha pfFourCC pfRGB pfYUV pfLuminance).

(** X8.  When [DecodeConfig] succeeds, the configuration carries the
    width and height of the header unchanged, and the bit count is one of
    32, 64, 24, 8, 16, which fixes the colour model up to the choice
    between gray and alpha.  In particular a header with any other bit
    count (0, as compressed files declare) is never given a
    configuration. *)
Theorem DecodeConfig_success (r : reader) (c : Config.t) :
  config r = ConfigOk c ->
  exists hd r',
    readHeader r = Ok (hd, r') /\
    Config.Width c = Header.width hd /\
    Config.Height c = Header.height hd /\
    let bc := PixelFormat.rgbBitCount (Header.pixelFormat hd) in
    (bc = 32 /\ Config.ColorModel c = RGBAModel) \/
    (bc = 64 /\ Config.ColorModel c = RGBA64Model) \/
    (bc = 24 /\ Config.ColorModel c = YCbCrModel) \/
    (bc = 8 /\ (Config.ColorModel c = GrayModel \/
                Config.ColorModel c = AlphaModel)) \/
    (bc = 16 /\ (Config.ColorModel c = Gray16Model \/
                 Config.ColorModel c = AlphaModel)).
Proof.
  unfold DecodeConfig.
  destruct (readHeader r) as [[hd r']| |]; try discriminate.
  intros H. exists hd, r'. split; [reflexivity|].
  cbv zeta in *.
  set (bc := PixelFormat.rgbBitCount (Header.pixelFormat hd)) in *.
  destruct (_ || _), (_ || _),
    (Z.land _ pfYUV =? pfYUV), (Z.land _ pfLuminance =? pfLuminance);
    cbn [andb] in H;
    repeat match type of H with
    | (if ?n =? ?k then _ else _) = _ =>
        destruct (Z.eqb_spec n k) as [?Hk|?Hk]
    end; try discriminate.
  all: injection H as <-; cbn [Config.Width Config.Height Config.ColorModel];
    (split; [reflexivity|]); (split; [reflexivity|]); tauto.
Qed.

(** X9.  For a 32-bit header that the uncompressed path of [Decode]
    accepts, [DecodeConfig] over the same stream succeeds with the
    dimensions of the header, which are also the bounds of the decoded
    surface; but it announces the RGBA colour model while the surface
    itself declares NRGBA. *)
Theorem DecodeConfig_vs_surface (r r' : reader) (hd : Header.t) (m : img) :
  readHeader r = Ok (hd, r') ->
  Header.wf hd ->
  PixelFormat.fourCC (Header.pixelFormat hd) = compressionTypeNone ->
  PixelFormat.rgbBitCount (Header.pixelFormat hd) = 32 ->
  Decode readHeader DecodeDXT1 pfAlphaPixels pfRGB readAllSpare r =
    Ok (ImageImg m) ->
  config r = ConfigOk (Config.Make RGBAModel (Header.width hd) (Header.height hd)) /\
  ColorModel m = NRGBAModel /\
  Bounds m = mkRect 0 0 (Header.width hd) (Header.height hd).
Proof.
  intros Hh (Hheight & Hwidth & _) Htag Hbc Hdec.
  unfold PixelFormat.is_u32 in *.
  unfold Decode in Hdec. rewrite Hh in Hdec. cbn [bind] in Hdec.
  rewrite Htag in Hdec. cbn [Z.eqb compressionTypeNone] in Hdec.
  rewrite decodeUncompressedDDS_cases in Hdec. cbv zeta in Hdec.
  destruct (Z.eqb_spec
              (Z.land (PixelFormat.flags (Header.pixelFormat hd))
                      (Z.lor pfAlphaPixels pfRGB))
              (Z.lor pfAlphaPixels pfRGB)) as [Hflags|Hflags];
    cbn [negb] in Hdec; [|discriminate].
  apply land_lor_both in Hflags as [_ HRGB].
  destruct (_ <=? _)%nat; [|discriminate].
  injection Hdec as <-.
  split; [|split].
  - unfold DecodeConfig. rewrite Hh. cbv zeta. rewrite Hbc, HRGB.
    rewrite Z.eqb_refl, orb_true_r. reflexivity.
  - reflexivity.
  - unfold Bounds. cbn [h]. apply imageRect_nonneg; lia.
Qed.

End ConfigProperties.

Lemma DecodeConfig_success_witness :
  exists hd r',
    sampleReadHeader [x00] = Ok (hd, r') /\
    Config.Width (Config.Make RGBAModel 4 4) = Header.width hd /\
    Config.Height (Config.Make RGBAModel 4 4) = Header.height hd.
Proof.
  destruct (DecodeConfig_success sampleReadHeader 1 2 4 64 512 131072 [x00]
              (Config.Make RGBAModel 4 4) eq_refl)
    as (hd & r' & Hh & Hw & Hht & _).
  exists hd, r'. auto.
Defined.

Lemma DecodeConfig_vs_surface_witness :
  DecodeConfig sampleReadHeader 1 2 4 64 512 131072 (x00 :: replicate 64 x7f) =
  ConfigOk (Config.Make RGBAModel 4 4).
Proof.
  refine (proj1 (DecodeConfig_vs_surface sampleReadHeader sampleDecodeDXT1
                   1 2 4 64 512 131072 (fun _ => 0%nat)
                   (x00 :: replicate 64 x7f) (replicate 64 x7f)
                   (sampleFormat compressionTypeNone 65)
                   (mkImg (sampleFormat compressionTypeNone 65)
                      (Slice.of_list (replicate 64 x7f)) 0 8 16 24 4 16)
                   eq_refl _ eq_refl eq_refl _)).
  - unfold Header.wf, PixelFormat.wf, PixelFormat.is_u32; simpl.
    repeat split; try lia; vm_compute; first [reflexivity | discriminate].
  - vm_compute. reflexivity.
Defined.

(** A BC3 header as encoders write it (FourCC flag, bit count 0) is
    dispatched by [Decode] to the BC3 decoder but refused by
    [DecodeConfig]. *)
Example DecodeConfig_refuses_DXT5 :
  DecodeConfig
    (fun r => Ok (Header.Make 4 4 (PixelFormat.Make 4 compressionTypeDXT5
                                     0 0 0 0 0), r))
    1 2 4 64 512 131072 [] =
  ConfigUnrecognized false true false false 4.
Proof. reflexivity. Qed.
